(** * The elvish line editor's screen writer and the evaluator's list indexing

    A shallow embedding of [edit/writer.go] (cells, screen buffers, the window
    selector, the completion and navigation listings, the frame composer and
    the terminal writer) and of [eval/list.go] (the list value: indexing,
    assigning, appending and printing), followed by the properties proved
    about them.

    Conventions of the embedding:
    - a Go [int] is a [Z] kept in the 64-bit two's complement range; sums and
      differences go through [wrap];
    - a Go panic is the [Panic] outcome of the [outcome] monad; [throw(err)] of
      package eval is the panic [Thrown err];
    - a pointer that may be nil is an [option]; a slice that may be nil is an
      [option (list _)];
    - a Go string that is only ever traversed by [range] is the sequence of
      runes the loop yields; a string that is written as bytes (style tags,
      escape sequences) is a [string]. *)

From Stdlib Require Import ZArith Lia String Ascii DecimalString DecimalZ DecimalPos.
From stdpp Require Import base tactics numbers option list strings gmap.

Local Open Scope Z_scope.

(** ** Machine integers *)

Definition min_int : Z := - 2 ^ 63.
Definition max_int : Z := 2 ^ 63 - 1.

(** Two's complement reduction of a mathematical integer to an [int]. *)
Definition wrap (x : Z) : Z := (x + 2 ^ 63) mod 2 ^ 64 - 2 ^ 63.

Definition is_int (x : Z) : Prop := min_int ≤ x ≤ max_int.

Definition int_add (x y : Z) : Z := wrap (x + y).
Definition int_sub (x y : Z) : Z := wrap (x - y).
Definition int_mul (x y : Z) : Z := wrap (x * y).

Infix "⊕" := int_add (at level 50, left associativity).
Infix "⊖" := int_sub (at level 50, left associativity).
Infix "⊗" := int_mul (at level 40, left associativity).

(** Conversion [byte(x)] of an int. *)
Definition to_byte (x : Z) : Z := x mod 256.

(** ** Panics and the outcome monad *)

(** Values of Go's [error] interface that occur in the two packages. *)
Inductive error : Type :=
| ErrNeedIntIndex              (* errors.New("need integer index") *)
| ErrIndexOutOfRange           (* errors.New("index out of range") *)
| PathError (errno : Z).       (* what the Write method of os.File reports *)

Inductive panic : Type :=
| NilDereference               (* invalid memory address or nil pointer dereference *)
| IndexOutOfRange              (* index out of range *)
| SliceBoundsOutOfRange        (* slice bounds out of range *)
| MakesliceCapOutOfRange       (* makeslice: cap out of range *)
| IntegerDivideByZero          (* integer divide by zero *)
| NegativeRepeatCount          (* strings: negative Repeat count *)
| Thrown (e : error).          (* throw(e) of package eval *)

Inductive outcome (A : Type) : Type :=
| Ok (a : A)
| Panic (p : panic).
Arguments Ok {A} a.
Arguments Panic {A} p.

#[global] Instance outcome_ret : MRet outcome := λ A a, Ok a.
#[global] Instance outcome_bind : MBind outcome := λ A B f m,
  match m with
  | Ok a => f a
  | Panic p => Panic p
  end.

(** [p.field] through a pointer [p]. *)
Definition deref {A} (p : option A) : outcome A :=
  match p with
  | Some a => Ok a
  | None => Panic NilDereference
  end.

(** The elements of a slice; a nil slice has none. *)
Definition elems {A} (s : option (list A)) : list A := default [] s.

(** [append(s, xs...)]: appending nothing to a nil slice leaves it nil. *)
Definition go_append {A} (s : option (list A)) (xs : list A) : option (list A) :=
  match s, xs with
  | None, [] => None
  | _, _ => Some (elems s ++ xs)
  end.

(** [len(s)] as an int. *)
Definition len {A} (l : list A) : Z := Z.of_nat (length l).

(** [l[i]]. *)
Definition index {A} (l : list A) (i : Z) : outcome A :=
  if (i <? 0) || (len l <=? i) then Panic IndexOutOfRange
  else match l !! Z.to_nat i with
       | Some a => Ok a
       | None => Panic IndexOutOfRange
       end.

(** [l[low:high]] for a slice without spare capacity. (Go allows [high] up
    to the capacity of the backing array; the lists of this model carry no
    capacity, and every use below stays within the length.) *)
Definition slice_range {A} (l : list A) (low high : Z) : outcome (list A) :=
  if (low <? 0) || (high <? low) || (len l <? high) then Panic SliceBoundsOutOfRange
  else Ok (take (Z.to_nat (high - low)) (drop (Z.to_nat low) l)).

(** [for i := lo; i < hi; i++ { body }], the body threading a state. *)
Fixpoint forM {A} (i : Z) (n : nat) (body : Z → A → outcome A) (a : A) : outcome A :=
  match n with
  | O => Ok a
  | S n' => a' ← body i a; forM (i + 1) n' body a'
  end.

Definition for_range {A} (lo hi : Z) (body : Z → A → outcome A) (a : A) : outcome A :=
  forM lo (Z.to_nat (hi - lo)) body a.

(** [x / y] and [x % y] on ints: truncated, panicking on a zero divisor. *)
Definition int_quot (x y : Z) : outcome Z :=
  if y =? 0 then Panic IntegerDivideByZero else Ok (wrap (x ÷ y)).
Definition int_rem (x y : Z) : outcome Z :=
  if y =? 0 then Panic IntegerDivideByZero else Ok (Z.rem x y).

(** Modelled from the spec: [util.CeilDiv] is not among the sources; the spec
    gives the number of rows as [ceil(N / columns)]. Go's [/] truncates, and
    dividing by zero panics. *)
Definition CeilDiv (a b : Z) : outcome Z := int_quot (a ⊕ b ⊖ 1) b.

(** ** Package edit: [writer.go] *)

Module Edit.

(** A rune is an int32 code point; a string that is traversed by [range] is
    the list of runes the traversal yields. *)
Abbreviation rune := Z.
Abbreviation runes := (list Z).

(** What [writer.go] takes from the rest of its package, from the Go
    library and from the operating system: [unicode.IsPrint], the display
    widths [wcwidth] and [wcwidths], [trimWcwidth], two style constants, and
    the result of writing a byte stream to the terminal file ([None] for a
    nil error). *)
Class Env : Type := {
  IsPrint : rune → bool;
  wcwidth : rune → Z;
  wcwidths : runes → Z;
  trimWcwidth : runes → Z → runes;
  attrForCurrentCompletion : string;
  attrForSelectedFile : string;
  fileWrite : Z → string → option error
}.

(** cell is an indivisible unit on the screen. It is not necessarily 1 column
    wide. *)
Module cell.
Record cell : Type := mk { rune : Z; width : Z; attr : string }.
End cell.
Abbreviation cell := cell.cell.

(** pos is the position within a buffer. *)
Module pos.
Record pos : Type := mk { line : Z; col : Z }.
End pos.
Abbreviation pos := pos.pos.

(** buffer reflects a continuous range of lines on the terminal. *)
Record buffer : Type := mkBuffer {
  width : Z;
  col : Z;
  indent : Z;
  newlineWhenFull : bool;
  cells : option (list (list cell));
  dot : pos
}.

Definition set_col (v : Z) (b : buffer) : buffer :=
  mkBuffer (width b) v (indent b) (newlineWhenFull b) (cells b) (dot b).
Definition set_indent (v : Z) (b : buffer) : buffer :=
  mkBuffer (width b) (col b) v (newlineWhenFull b) (cells b) (dot b).
Definition set_newlineWhenFull (v : bool) (b : buffer) : buffer :=
  mkBuffer (width b) (col b) (indent b) v (cells b) (dot b).
Definition set_cells (v : option (list (list cell))) (b : buffer) : buffer :=
  mkBuffer (width b) (col b) (indent b) (newlineWhenFull b) v (dot b).
Definition set_dot (v : pos) (b : buffer) : buffer :=
  mkBuffer (width b) (col b) (indent b) (newlineWhenFull b) (cells b) v.

(** [make([]cell, 0, width)] panics on a negative capacity. *)
Definition newBuffer (width : Z) : outcome buffer :=
  if width <? 0 then Panic MakesliceCapOutOfRange
  else Ok (mkBuffer width 0 0 false (Some [[]]) (pos.mk 0 0)).

Definition appendCell (c : cell) (b : buffer) : outcome buffer :=
  let ls := elems (cells b) in
  let n := length ls in
  match ls !! Nat.pred n with
  | None => Panic IndexOutOfRange
  | Some l =>
      Ok (set_col (col b ⊕ cell.width c)
            (set_cells (Some (<[Nat.pred n := l ++ [c]]> ls)) b))
  end.

Definition appendLine (b : buffer) : outcome buffer :=
  if width b <? 0 then Panic MakesliceCapOutOfRange
  else Ok (set_col 0 (set_cells (go_append (cells b) [[]]) b)).

Definition newline (b : buffer) : outcome buffer :=
  b ← appendLine b;
  if 0 <? indent b then
    for_range 0 (indent b) (λ _ b, appendCell (cell.mk 32 1 "") b) b
  else Ok b.

(** The receiver [b] may be nil: it is only dereferenced once [b2] and its
    cells are known not to be nil. *)
Definition extend (b b2 : option buffer) : outcome (option buffer) :=
  match b2 with
  | Some b2' =>
      match cells b2' with
      | Some ls2 =>
          b' ← deref b;
          Ok (Some (set_col (col b2') (set_cells (go_append (cells b') ls2) b')))
      | None => Ok b
      end
  | None => Ok b
  end.

Section WithEnv.
Context {env : Env}.

(** write appends a single rune to a buffer. *)
Definition write (r : rune) (attr : string) (b : buffer) : outcome buffer :=
  if r =? 10 then newline b
  else if negb (IsPrint r) then Ok b
  else
    let wd := wcwidth r in
    let c := cell.mk r (to_byte wd) attr in
    if width b <? col b ⊕ wd then
      b ← newline b;
      appendCell c b
    else
      b ← appendCell c b;
      if (col b =? width b) && newlineWhenFull b then newline b else Ok b.

Fixpoint writes (s : runes) (attr : string) (b : buffer) : outcome buffer :=
  match s with
  | [] => Ok b
  | r :: s' => b ← write r attr b; writes s' attr b
  end.

(** [strings.Repeat] panics on a negative count. *)
Definition writePadding (w : Z) (attr : string) (b : buffer) : outcome buffer :=
  if w <? 0 then Panic NegativeRepeatCount
  else writes (replicate (Z.to_nat w) 32) attr b.

End WithEnv.

Definition line (b : buffer) : Z := len (elems (cells b)) ⊖ 1.

Definition cursor (b : buffer) : pos := pos.mk (len (elems (cells b)) ⊖ 1) (col b).

(** The two loops only clear lines that the slicing drops; they matter here
    for the indices they touch: the first runs past the end when [low]
    exceeds the length, the second starts below 0 when [high] is negative. *)
Definition trimToLines (low high : Z) (b : buffer) : outcome buffer :=
  let ls := elems (cells b) in
  if len ls <? low then Panic IndexOutOfRange
  else if (high <? 0) && (high <? len ls) then Panic IndexOutOfRange
  else
    ls' ← slice_range ls low high;
    Ok (set_dot (pos.mk (pos.line (dot b) ⊖ low) (pos.col (dot b)))
          (set_cells (match cells b with None => None | Some _ => Some ls' end) b)).

(** writer is the part of an Editor responsible for keeping the status of and
    updating the screen. The file is kept as its descriptor. *)
Record writer : Type := mkWriter {
  file : Z;
  oldBuf : option buffer
}.

Definition newWriter (f : Z) : outcome writer :=
  b ← newBuffer 0;
  Ok (mkWriter f (Some b)).

Definition ESC : string := String (ascii_of_nat 27) "".
Definition CR : string := String (ascii_of_nat 13) "".
Definition LF : string := String (ascii_of_nat 10) "".

(** [%d] of an int. *)
Definition fmt_d (n : Z) : string := NilZero.string_of_int (Z.to_int n).

(** [string(r)]: the UTF-8 encoding of a rune, U+FFFD for an invalid one. *)
Definition utf8_bytes (r : Z) : list Z :=
  if r <? 128 then [r]
  else if r <? 2048 then [192 + r / 64; 128 + r mod 64]
  else if r <? 65536 then [224 + r / 4096; 128 + r / 64 mod 64; 128 + r mod 64]
  else [240 + r / 262144; 128 + r / 4096 mod 64; 128 + r / 64 mod 64; 128 + r mod 64].

Definition valid_rune (r : Z) : bool :=
  (0 <=? r) && (r <=? 1114111) && negb ((55296 <=? r) && (r <=? 57343)).

Definition string_of_rune (r : Z) : string :=
  string_of_list_ascii
    ((λ x, ascii_of_N (Z.to_N x)) <$> utf8_bytes (if valid_rune r then r else 65533)).

(** deltaPos calculates the escape sequence needed to move the cursor from one
    position to another. *)
Definition deltaPos (from to : pos) : string :=
  (if pos.line from <? pos.line to then
     ESC +:+ "[" +:+ fmt_d (pos.line to ⊖ pos.line from) +:+ "B"
   else if pos.line to <? pos.line from then
     ESC +:+ "[" +:+ fmt_d (pos.line from ⊖ pos.line to) +:+ "A"
   else "")
  +:+ ESC +:+ "[" +:+ fmt_d (pos.col to ⊕ 1) +:+ "G".

(** The inner loop of commitBuffer: one line's cells, threading the bytes
    written so far and the style in force. *)
Definition paintLine (l : list cell) (st : string * string) : string * string :=
  foldl (λ '(out, attr) c,
           let '(out, attr) :=
             if (0 <? cell.width c) && negb (String.eqb (cell.attr c) attr)
             then (out +:+ ESC +:+ "[m" +:+ ESC +:+ "[" +:+ cell.attr c +:+ "m", cell.attr c)
             else (out, attr) in
           (out +:+ string_of_rune (cell.rune c), attr))
        st l.

Fixpoint paintLines (i : Z) (ls : list (list cell)) (st : string * string) : string * string :=
  match ls with
  | [] => st
  | l :: ls' =>
      let st := if 0 <? i then (st.1 +:+ LF, st.2) else st in
      paintLines (i + 1) ls' (paintLine l st)
  end.

(** The bytes commitBuffer assembles before it writes them. *)
Definition commitBytes (old buf : buffer) : string :=
  let pLine := pos.line (dot old) in
  let out := if 0 <? pLine then ESC +:+ "[" +:+ fmt_d pLine +:+ "A" else "" in
  let out := out +:+ CR +:+ ESC +:+ "[J" in
  let '(out, attr) := paintLines 0 (elems (cells buf)) (out, "") in
  let out := if negb (String.eqb attr "") then out +:+ ESC +:+ "[m" else out in
  let cur := cursor buf in
  let cur := if pos.col cur =? width buf then pos.mk (pos.line cur) (pos.col cur ⊖ 1) else cur in
  out +:+ deltaPos cur (dot buf).

Section WithEnv.
Context {env : Env}.

(** commitBuffer updates the terminal display to reflect current buffer. *)
Definition commitBuffer (w : writer) (buf : option buffer) : outcome (writer * option error) :=
  old ← deref (oldBuf w);
  b ← deref buf;
  match fileWrite (file w) (commitBytes old b) with
  | Some err => Ok (w, Some err)
  | None => Ok (mkWriter (file w) buf, None)
  end.

End WithEnv.

Definition lines (bufs : list (option buffer)) : Z :=
  foldl (λ l buf, match buf with
                  | Some b => l ⊕ len (elems (cells b))
                  | None => l
                  end) 0 bufs.

(** findWindow finds a window of lines around the selected line in a total
    number of height lines, that is at most max lines. *)
Definition findWindow (height selected max : Z) : Z * Z :=
  if max <? height then
    let low := selected ⊖ max ÷ 2 in
    let high := low ⊕ max in
    if low <? 0 then
      let low := 0 in
      let high := low ⊕ max in
      (low, high)
    else if height <? high then
      let high := height in
      let low := high ⊖ max in
      (low, high)
    else (low, high)
  else (0, height).

(** The window property as section 8 of the spec words it. *)
Definition window_contains (total selected max : Z) : Prop :=
  let '(low, high) := findWindow total selected max in
  (0 ≤ low ≤ high ∧ high ≤ total) ∧
  high - low ≤ max ∧
  (total > max → high - low = max) ∧
  (total > max → low = 0 ∨ high = total ∨ low ≤ selected < high).

(** The fields of the editor state that the part of refresh below reads
    (their declarations are in another file of the package): the text of a
    completion candidate, the candidates and the current one, and the two
    columns of the navigation listing. *)
Record candidate : Type := mkCandidate { text : runes }.

Module completion.
Record completion : Type := mk { candidates : list candidate; current : Z }.
End completion.
Abbreviation completion := completion.completion.

Record navColumn : Type := mkNavColumn { names : list runes; selected : Z }.

Module navigation.
Record navigation : Type := mk { current : navColumn; parent : navColumn }.
End navigation.
Abbreviation navigation := navigation.navigation.

Definition trimToWindow (s : list runes) (selected max : Z) : outcome (list runes * Z) :=
  let '(low, high) := findWindow (len s) selected max in
  s' ← slice_range s low high;
  Ok (s', low).

(** The shape of the completion grid: the width of a column, the number of
    columns and the number of rows. *)
Definition gridShape {env : Env} (cands : list candidate) (bwidth : Z) : outcome (Z * Z * Z) :=
  let colWidth :=
    foldl (λ colWidth cand,
             let width := wcwidths (text cand) in
             if colWidth <? width then width else colWidth) 0 cands in
  let colMargin := 2 in
  cols ← int_quot (bwidth ⊕ colMargin) (colWidth ⊕ colMargin);
  let cols := if cols =? 0 then 1 else cols in
  lines ← CeilDiv (len cands) cols;
  Ok (colWidth, cols, lines).

(** The candidate shown at row [i], column [j] of a grid of [lines] rows. *)
Definition gridIndex (lines i j : Z) : Z := j ⊗ lines ⊕ i.

Section WithEnv.
Context {env : Env}.

(** refresh, the completion listing: written into [b], it also yields the
    number of rows that refresh stores in the editor state. *)
Definition completionListing (comp : completion) (listingHeight : Z) (b : buffer)
  : outcome (buffer * Z) :=
  let cands := completion.candidates comp in
  '(colWidth, cols, lines) ← gridShape cands (width b);
  let colMargin := 2 in
  sel ← int_rem (completion.current comp) lines;
  let '(low, high) := findWindow lines sel listingHeight in
  b ← for_range low high (λ i b,
         b ← (if low <? i then newline b else Ok b);
         for_range 0 cols (λ j b,
           let k := gridIndex lines i j in
           if len cands <=? k then Ok b
           else
             cand ← index cands k;
             let attr := if k =? completion.current comp
                         then attrForCurrentCompletion else "" in
             b ← writes (text cand) attr b;
             b ← writePadding (colWidth ⊖ wcwidths (text cand)) attr b;
             writePadding colMargin "" b) b) b;
  Ok (b, lines).

(** refresh, the navigation listing. *)
Definition navigationListing (nav : navigation) (width listingHeight : Z) : outcome buffer :=
  b ← newBuffer width;
  '(filenames, low) ←
    trimToWindow (names (navigation.current nav)) (selected (navigation.current nav))
      listingHeight;
  '(parentFilenames, parentLow) ←
    trimToWindow (names (navigation.parent nav)) (selected (navigation.parent nav))
      listingHeight;
  let colMargin := 1 in
  parentWidth ← int_quot (width ⊕ colMargin) 2;
  let currentWidth := width ⊖ colMargin ⊖ parentWidth in
  for_range 0 (Z.max (len filenames) (len parentFilenames)) (λ i b,
    b ← (if 0 <? i then newline b else Ok b);
    text ← (if i <? len parentFilenames then index parentFilenames i else Ok []);
    let attr := if i ⊕ parentLow =? selected (navigation.parent nav)
                then attrForSelectedFile else "" in
    b ← writes (trimWcwidth text parentWidth) attr b;
    b ← writePadding (parentWidth ⊖ wcwidths text) attr b;
    b ← writePadding colMargin "" b;
    if i <? len filenames then
      text ← index filenames i;
      let attr := if i ⊕ low =? selected (navigation.current nav)
                  then attrForSelectedFile else "" in
      b ← writes (trimWcwidth text currentWidth) attr b;
      writePadding (currentWidth ⊖ wcwidths text) attr b
    else Ok b) b.

(** refresh, "Render bufListing under the maximum height constraint": the
    listing buffer, and the row count stored in the editor state if any. *)
Definition listing (width listingHeight : Z) (comp : option completion)
    (nav : option navigation) : outcome (option buffer * option Z) :=
  if (0 <? listingHeight) && bool_decide (is_Some comp) || bool_decide (is_Some nav) then
    b ← newBuffer width;
    '(b, completionLines) ←
      match comp with
      | Some c => '(b, l) ← completionListing c listingHeight b; Ok (b, Some l)
      | None => Ok (b, None)
      end;
    b ← match nav with
        | Some n => navigationListing n width listingHeight
        | None => Ok b
        end;
    Ok (Some b, completionLines)
  else Ok (None, None).

End WithEnv.

(** refresh, "Trim lines and determine the maximum height for bufListing":
    the listing height and what is left of bufLine, bufMode and bufTips. *)
Definition fitHeight (height : Z) (bufLine : buffer) (bufMode bufTips : option buffer)
  : outcome (Z * option buffer * option buffer * option buffer) :=
  if lines [Some bufLine; bufMode; bufTips] <=? height then
    Ok (height ⊖ lines [Some bufLine; bufMode; bufTips], Some bufLine, bufMode, bufTips)
  else if lines [Some bufLine; bufTips] <=? height then
    Ok (0, Some bufLine, None, bufTips)
  else if lines [Some bufLine] <=? height then
    Ok (0, Some bufLine, None, None)
  else if 1 <=? height then
    let dotLine := pos.line (dot bufLine) in
    bufLine ← trimToLines (dotLine ⊕ 1 ⊖ height) (dotLine ⊕ 1) bufLine;
    Ok (0, Some bufLine, None, None)
  else Ok (0, None, None, None).

Section WithEnv.
Context {env : Env}.

(** The frame refresh hands to commitBuffer, from the point where bufLine,
    bufMode and bufTips have been written: the terminal size, the three
    buffers and the completion and navigation contexts are the inputs. *)
Definition frame (width height : Z) (bufLine : buffer) (bufMode bufTips : option buffer)
    (comp : option completion) (nav : option navigation)
  : outcome (option buffer * option Z) :=
  '(listingHeight, bufLine, bufMode, bufTips) ← fitHeight height bufLine bufMode bufTips;
  '(bufListing, completionLines) ← listing width listingHeight comp nav;
  buf ← extend bufLine bufMode;
  buf ← extend buf bufTips;
  buf ← extend buf bufListing;
  Ok (buf, completionLines).

(** refresh redraws the line editor. This is refresh from "Trim lines and
    determine the maximum height for bufListing" to its end; what comes
    before, the writing of bufLine, bufMode and bufTips, is a sequence of
    the operations on a buffer above, and its results are inputs here,
    together with the terminal size that refresh queries first. *)
Definition refresh (w : writer) (width height : Z) (bufLine : buffer)
    (bufMode bufTips : option buffer) (comp : option completion) (nav : option navigation)
  : outcome (writer * option error) :=
  '(buf, _) ← frame width height bufLine bufMode bufTips comp nav;
  commitBuffer w buf.

End WithEnv.

End Edit.

(** ** Package eval: [list.go] *)

Module Eval.

(** The [Err] field of the [*strconv.NumError] that [strconv.Atoi] returns. *)
Inductive NumError : Type := ErrSyntax | ErrRange.

(** What [list.go] takes from the rest of its package and from the Go
    library: the values with their [ToString], and [strconv.Atoi]. *)
Class Env : Type := {
  Value : Type;
  ToString : Value → string;
  Atoi : string → Z + NumError
}.

(** List is a list of Value's. Its [inner] points to the slice, so copies of
    a List share one slice: the slices live in a store, and [inner] is the
    address. An address the store does not hold stands for a nil pointer.
    The store holds the values of each slice, not its backing array: two
    slices behind different addresses that share an array in Go (NewList
    keeps the slice it is given) are two entries here, so the store says
    what one list and its copies read, and nothing about what a write to
    one list shows through another. *)
Record List : Type := mkList { inner : positive }.

Definition throw {A} (e : error) : outcome A := Panic (Thrown e).

Section WithEnv.
Context {env : Env}.

Abbreviation store := (gmap positive (list Value)).

(** NewList creates a new List. *)
Definition NewList (vs : list Value) (σ : store) : List * store :=
  let a := fresh (dom σ) in
  (mkList a, <[a := vs]> σ).

Definition intIndex (idx : Value) : outcome Z :=
  match Atoi (ToString idx) with
  | inl i => Ok i
  | inr ErrRange => throw ErrIndexOutOfRange
  | inr _ => throw ErrNeedIntIndex
  end.

(** [i += n] cannot overflow: it is only done for a negative [i] and the
    length [n] of a slice. *)
Definition intIndexWithin (idx : Value) (n : Z) : outcome Z :=
  i ← intIndex idx;
  let i := if i <? 0 then i ⊕ n else i in
  if (i <? 0) || (n <=? i) then throw ErrIndexOutOfRange
  else Ok i.

Definition IndexOne (l : List) (idx : Value) (σ : store) : outcome Value :=
  vs ← deref (σ !! inner l);
  i ← intIndexWithin idx (len vs);
  index vs i.

Definition IndexSet (l : List) (idx : Value) (v : Value) (σ : store) : outcome store :=
  vs ← deref (σ !! inner l);
  i ← intIndexWithin idx (len vs);
  _ ← index vs i;
  Ok (<[inner l := <[Z.to_nat i := v]> vs]> σ).

End WithEnv.

(** ListReprBuilder helps to build Repr of list-like Values. Its buffer is
    the bytes written so far. *)
Module ListReprBuilder.
Record ListReprBuilder : Type := mk { buf : string }.

Definition WriteElem (v : string) (b : ListReprBuilder) : ListReprBuilder :=
  let b := if (String.length (buf b) =? 0)%nat
           then mk (buf b +:+ "[")
           else mk (buf b +:+ " ") in
  mk (buf b +:+ v).

(** The method String: the text, and the builder as the call leaves it. *)
Definition String (b : ListReprBuilder) : string * ListReprBuilder :=
  if (String.length (buf b) =? 0)%nat then ("[]", b)
  else
    let b := mk (buf b +:+ "]") in
    (buf b, b).
End ListReprBuilder.
Abbreviation ListReprBuilder := ListReprBuilder.ListReprBuilder.

Section Rest.
Context {env : Env}.
(** What the rest of [list.go] takes from its package: the conversion
    [String(s)] of a string to a value, and the method [Repr] of a value. *)
Variable StringValue : string → Value.
Variable valueRepr : Value → string.

Definition Kind (l : List) : string := "list".

Fixpoint appendStrings (l : List) (ss : list string) (σ : gmap positive (list Value))
  : outcome (gmap positive (list Value)) :=
  match ss with
  | [] => Ok σ
  | s :: ss' =>
      vs ← deref (σ !! inner l);
      appendStrings l ss' (<[inner l := vs ++ [StringValue s]]> σ)
  end.

Definition Repr (l : List) (σ : gmap positive (list Value)) : outcome string :=
  vs ← deref (σ !! inner l);
  let b := foldl (λ b v, ListReprBuilder.WriteElem (valueRepr v) b)
             (ListReprBuilder.mk "") vs in
  Ok (ListReprBuilder.String b).1.

End Rest.

(** An instance for closed examples: the values are strings ([ToString] of a
    string value is the string), and the index is read as [strconv.Atoi] is
    documented to read it: an optional sign, then decimal digits, a range
    error when the number does not fit. *)
Definition digit (a : ascii) : option Z :=
  let n := Z.of_nat (nat_of_ascii a) in
  if (48 <=? n) && (n <=? 57) then Some (n - 48) else None.

Fixpoint parseDigits (s : string) (acc : Z) : Z + NumError :=
  match s with
  | EmptyString => inl acc
  | String a s' =>
      match digit a with
      | None => inr ErrSyntax
      | Some d =>
          if 2 ^ 64 <=? acc * 10 + d then inr ErrRange
          else parseDigits s' (acc * 10 + d)
      end
  end.

Definition decimalAtoi (s : string) : Z + NumError :=
  let '(neg, body) :=
    match s with
    | String "+" r => (false, r)
    | String "-" r => (true, r)
    | _ => (false, s)
    end in
  match body with
  | EmptyString => inr ErrSyntax
  | _ =>
      match parseDigits body 0 with
      | inl n =>
          let v := if neg : bool then - n else n in
          if (v <? min_int) || (max_int <? v) then inr ErrRange else inl v
      | inr e => inr e
      end
  end.

Definition stringEnv : Env :=
  {| Value := string; ToString := λ s, s; Atoi := decimalAtoi |}.

End Eval.

(** ** Instances of the editor's environment for closed examples *)

(** Printable ASCII: every rune from 32 to 126 prints and is one column
    wide; the terminal accepts every write. *)
Definition asciiEnv : Edit.Env :=
  {| Edit.IsPrint := λ r, (32 <=? r) && (r <=? 126);
     Edit.wcwidth := λ _, 1;
     Edit.wcwidths := λ s, len s;
     Edit.trimWcwidth := λ s w, take (Z.to_nat w) s;
     Edit.attrForCurrentCompletion := "7";
     Edit.attrForSelectedFile := "7";
     Edit.fileWrite := λ _ _, None |}.

(** The same, on a terminal whose every write fails with errno 5 (EIO). *)
Definition brokenTerminalEnv : Edit.Env :=
  {| Edit.IsPrint := λ r, (32 <=? r) && (r <=? 126);
     Edit.wcwidth := λ _, 1;
     Edit.wcwidths := λ s, len s;
     Edit.trimWcwidth := λ s w, take (Z.to_nat w) s;
     Edit.attrForCurrentCompletion := "7";
     Edit.attrForSelectedFile := "7";
     Edit.fileWrite := λ _ _, Some (PathError 5) |}.

(** Printable ASCII, one column wide, and the CJK unified ideographs
    (U+4E00 to U+9FFF), two columns wide. *)
Definition wideWidth (r : Z) : Z := if r <? 128 then 1 else 2.

Fixpoint wideTrim (s : list Z) (w : Z) : list Z :=
  match s with
  | [] => []
  | r :: s' => if w <? wideWidth r then [] else r :: wideTrim s' (w - wideWidth r)
  end.

Definition wideEnv : Edit.Env :=
  {| Edit.IsPrint := λ r, (32 <=? r) && (r <=? 126) || (19968 <=? r) && (r <=? 40959);
     Edit.wcwidth := wideWidth;
     Edit.wcwidths := λ s, foldr (λ r n, wideWidth r + n) 0 s;
     Edit.trimWcwidth := wideTrim;
     Edit.attrForCurrentCompletion := "7";
     Edit.attrForSelectedFile := "7";
     Edit.fileWrite := λ _ _, None |}.

(** ** Vocabulary of the properties *)

Import Edit.

(** The display width of a line: the sum of the widths of its cells. *)
Definition lineWidth (l : list cell) : Z := foldr (λ c w, cell.width c + w) 0 l.

(** Every line of the buffer fits the buffer's width. *)
Definition widthSafe (b : buffer) : Prop :=
  Forall (λ l, lineWidth l ≤ width b) (elems (cells b)).

(** The operations refresh applies to a buffer between its creation and its
    commit: the four writing methods, the assignments to [indent] and
    [newlineWhenFull], and [b.dot = b.cursor()]. *)
Inductive op : Type :=
| OpWrite (r : rune) (attr : string)
| OpWrites (s : runes) (attr : string)
| OpWritePadding (w : Z) (attr : string)
| OpNewline
| OpSetIndent (n : Z)
| OpSetNewlineWhenFull (f : bool)
| OpMarkDot.

Definition step {env : Env} (o : op) (b : buffer) : outcome buffer :=
  match o with
  | OpWrite r attr => write r attr b
  | OpWrites s attr => writes s attr b
  | OpWritePadding w attr => writePadding w attr b
  | OpNewline => newline b
  | OpSetIndent n => Ok (set_indent n b)
  | OpSetNewlineWhenFull f => Ok (set_newlineWhenFull f b)
  | OpMarkDot => Ok (set_dot (cursor b) b)
  end.

Fixpoint run {env : Env} (ops : list op) (b : buffer) : outcome buffer :=
  match ops with
  | [] => Ok b
  | o :: ops' => b ← step o b; run ops' b
  end.

(** An operation that leaves room for a cell of two columns after the indent
    and pads by a count that [strings.Repeat] accepts. *)
Definition opFits (w : Z) (o : op) : Prop :=
  match o with
  | OpSetIndent n => n + 2 ≤ w
  | OpWritePadding n _ => 0 ≤ n
  | _ => True
  end.

(** The cell that newline writes for the indent. *)
Definition blank : cell := cell.mk 32 1 "".

(** The wording of the spec for [write], on buffers as values. "Start a new
    line (re-applying indent)": *)
Definition startNewLine (b : buffer) : buffer :=
  set_col (Z.max 0 (indent b))
    (set_cells (Some (elems (cells b) ++ [replicate (Z.to_nat (indent b)) blank])) b).

(** "place it in the current line": *)
Definition placeCell (c : cell) (b : buffer) : buffer :=
  let ls := elems (cells b) in
  set_col (col b + cell.width c)
    (set_cells (Some (removelast ls ++ [default [] (last ls) ++ [c]])) b).

(** and [write] itself, sentence by sentence: a line terminator starts a new
    line; a rune that does not print is dropped; any other rune is placed,
    after a new line when the column plus its width exceeds the width. The
    last sentence stands by itself in the spec: when the cell that was placed
    fills the line and wrapping when full is set, a new line is started,
    whether the cell went into the current line or into a new one. *)
Definition writeSpec {env : Env} (r : rune) (tag : string) (b : buffer) : buffer :=
  if r =? 10 then startNewLine b
  else if negb (IsPrint r) then b
  else
    let c := cell.mk r (wcwidth r) tag in
    let b' := if col b + wcwidth r >? width b then placeCell c (startNewLine b)
              else placeCell c b in
    if (col b' =? width b') && newlineWhenFull b' then startNewLine b' else b'.

(** Coordinates that are ints and stay at least one cell (a width is a byte)
    away from the end of the int range. *)
Definition screenInts (b : buffer) : Prop :=
  0 ≤ width b ∧ min_int ≤ col b ≤ max_int - 256 ∧ indent b ≤ max_int - 256.

(** What the writing methods keep true of a buffer of width [w]: the column
    is the width of the last line, every line fits, and after the indent
    there is room for a cell of two columns. *)
Definition fitsWidth (w : Z) (b : buffer) : Prop :=
  width b = w ∧ indent b + 2 ≤ w ∧
  ∃ ls l, cells b = Some (ls ++ [l]) ∧ col b = lineWidth l ∧
          0 ≤ col b ≤ w ∧ Forall (λ l, lineWidth l ≤ w) ls.

(** The number of lines of a buffer that may be nil. *)
Definition nlines (p : option buffer) : Z :=
  match p with
  | Some b => len (elems (cells b))
  | None => 0
  end.

(** The dot is on one of the lines of the buffer. *)
Definition dotOnLine (b : buffer) : Prop :=
  0 ≤ pos.line (dot b) < len (elems (cells b)).

(** What every writing method does to the lines and to the dot: no line is
    lost, and the dot stays. *)
Definition grows (b b' : buffer) : Prop :=
  len (elems (cells b)) ≤ len (elems (cells b')) ∧ dot b' = dot b.

(** A buffer that the writing methods accept: it has a line to write to, and
    a width that [make] accepts for the next line. *)
Definition writable (b : buffer) : Prop :=
  elems (cells b) ≠ [] ∧ 0 ≤ width b.

(** A padding count that [strings.Repeat] accepts. *)
Definition paddingFits (o : op) : Prop :=
  match o with
  | OpWritePadding n _ => 0 ≤ n
  | _ => True
  end.

(** Every line of [ls] is still there in [ls'], at its place, possibly with
    more cells after its own. *)
Definition linesExtended (ls ls' : list (list cell)) : Prop :=
  ∀ i l, ls !! i = Some l → ∃ l', ls' !! i = Some l' ∧ l `prefix_of` l'.

(** The cells that [writes] makes of a string: one for every rune that
    prints, in the order of the string. *)
Definition cellsOf {env : Env} (s : runes) (attr : string) : list cell :=
  (λ r, cell.mk r (to_byte (wcwidth r)) attr)
    <$> filter (λ r, r ≠ 10 ∧ IsPrint r = true) s.

(** The text of a line as commitBuffer writes it, styles apart. *)
Definition lineText (l : list cell) : string :=
  foldr (λ c s, string_of_rune (cell.rune c) +:+ s) "" l.

(** The sequence that sets a style. *)
Definition styleSeq (attr : string) : string :=
  ESC +:+ "[m" +:+ ESC +:+ "[" +:+ attr +:+ "m".

(** Modelled from the spec: how the terminal reads the cursor sequences of
    the fixed dialect, [ESC[<n>A] (up by n lines), [ESC[<n>B] (down by n
    lines) and [ESC[<n>G] (to column n, counted from 1). The reader goes
    through the bytes one by one; it knows no other sequence, and it does not
    clamp the cursor to a screen. *)
Inductive termState : Type :=
| Ground
| Escape
| Csi (params : string).

Definition isFinal (c : ascii) : bool :=
  Ascii.eqb c "A" || Ascii.eqb c "B" || Ascii.eqb c "G".

Definition paramValue (params : string) : option Z :=
  Z.of_int <$> NilZero.int_of_string params.

Definition termStep (c : ascii) (st : termState * pos) : option (termState * pos) :=
  let '(s, p) := st in
  match s with
  | Ground => if Ascii.eqb c (ascii_of_nat 27) then Some (Escape, p) else None
  | Escape => if Ascii.eqb c "[" then Some (Csi "", p) else None
  | Csi params =>
      if isFinal c then
        n ← paramValue params;
        if Ascii.eqb c "A" then Some (Ground, pos.mk (pos.line p - n) (pos.col p))
        else if Ascii.eqb c "B" then Some (Ground, pos.mk (pos.line p + n) (pos.col p))
        else Some (Ground, pos.mk (pos.line p) (n - 1))
      else Some (Csi (params +:+ String c ""), p)
  end.

Fixpoint termFeed (s : string) (st : termState * pos) : option (termState * pos) :=
  match s with
  | EmptyString => Some st
  | String c s' => st' ← termStep c st; termFeed s' st'
  end.

(** No byte of [s] is a letter that ends a cursor sequence. *)
Fixpoint noFinal (s : string) : Prop :=
  match s with
  | EmptyString => True
  | String c s' => isFinal c = false ∧ noFinal s'
  end.

(** Where the cursor is after the terminal has read [s], if [s] is made of
    whole cursor sequences. *)
Definition readCursor (s : string) (p : pos) : option pos :=
  match termFeed s (Ground, p) with
  | Some (Ground, p') => Some p'
  | _ => None
  end.

(** The element that an index reading as the int [i] selects in a list of
    [n] values: a negative index counts from the end. *)
Definition position (i n : Z) : Z := if i <? 0 then i + n else i.

(** The texts [rs], each one after the separator [sep]: what follows the
    first element in a list of elements written with a separator between
    them. *)
Definition eachAfter (sep : string) (rs : list string) : string :=
  foldr (λ r s, sep +:+ r +:+ s) "" rs.

(** * Properties *)

Lemma wrap_small x : is_int x → wrap x = x.
Proof.
  unfold is_int, min_int, max_int, wrap. intros H.
  rewrite Z.mod_small; lia.
Qed.

Ltac unwrap :=
  unfold int_add, int_sub, int_mul;
  repeat match goal with
         | |- context [wrap ?x] =>
             rewrite (wrap_small x) by (unfold is_int, min_int, max_int in *; lia)
         end.

(** Settles the comparisons of the goal that the hypotheses decide. *)
Ltac decide_cmp :=
  repeat match goal with
         | |- context [?a <? ?b] => destruct (Z.ltb_spec a b); try lia
         | |- context [?a <=? ?b] => destruct (Z.leb_spec a b); try lia
         end;
  simpl.

Section Window.

(** C1, the claim as stated fails: a window of height 0 is empty, so it
    cannot hold the selected line, and with 5 lines and line 2 selected it
    touches neither end of the list. *)
Lemma findWindow_zero_max_misses_selection :
  0 ≤ 2 < 5 ∧ findWindow 5 2 0 = (2, 2) ∧ ¬ window_contains 5 2 0.
Proof.
  split; [lia|]. split; [reflexivity|].
  unfold window_contains. vm_compute findWindow.
  intros (_ & _ & _ & H). destruct H as [H | [H | H]]; lia.
Qed.

(** C1, amended: for [0 ≤ selected < total], a height [max ≥ 0] and a
    tentative upper end [selected - max/2 + max] that fits an int, the window
    lies within the list, is at most [max] long (exactly [max] when
    [total > max]) and, when [total > max] and [max ≥ 1], it starts at 0, ends
    at [total] or holds [selected]. *)
Theorem findWindow_window (total selected max : Z) :
  total ≤ max_int →
  0 ≤ selected < total →
  0 ≤ max →
  (total > max → selected - max ÷ 2 + max ≤ max_int) →
  let '(low, high) := findWindow total selected max in
  (0 ≤ low ≤ high ∧ high ≤ total) ∧
  high - low ≤ max ∧
  (total > max → high - low = max) ∧
  (total > max → 1 ≤ max → low = 0 ∨ high = total ∨ low ≤ selected < high).
Proof.
  intros Ht Hs Hm Hov. unfold findWindow.
  destruct (Z.ltb_spec max total) as [Hlt | Hge]; [|lia].
  specialize (Hov ltac:(lia)).
  assert (Hq : 0 ≤ max ÷ 2 ∧ 2 * (max ÷ 2) ≤ max ∧ max < 2 * (max ÷ 2) + 2).
  { rewrite Z.quot_div_nonneg by lia.
    pose proof (Z.div_mod max 2 ltac:(lia)).
    pose proof (Z.mod_pos_bound max 2 ltac:(lia)). lia. }
  unfold max_int in *.
  unwrap. unwrap.
  destruct (Z.ltb_spec (selected - max ÷ 2) 0) as [Hlo | Hlo].
  - unwrap. lia.
  - destruct (Z.ltb_spec total (selected - max ÷ 2 + max)) as [Hhi | Hhi].
    + unwrap. lia.
    + lia.
Qed.

(** [findWindow_window] on 100 lines, line 50 selected, at most 10 shown. *)
Lemma findWindow_window_witness :
  let '(low, high) := findWindow 100 50 10 in
  (0 ≤ low ≤ high ∧ high ≤ 100) ∧
  high - low ≤ 10 ∧
  (100 > 10 → high - low = 10) ∧
  (100 > 10 → 1 ≤ 10 → low = 0 ∨ high = 100 ∨ low ≤ 50 < high).
Proof.
  apply (findWindow_window 100 50 10); unfold max_int; try lia.
  intros _. vm_compute. discriminate.
Defined.

End Window.

(** ** Screen buffers *)

Lemma lineWidth_app l c : lineWidth (l ++ [c]) = lineWidth l + cell.width c.
Proof. induction l as [|c' l IH]; simpl; lia. Qed.

Lemma lineWidth_blanks n : lineWidth (replicate n blank) = Z.of_nat n.
Proof. induction n as [|n IH]; simpl replicate; simpl lineWidth; [done|]. rewrite IH. simpl. lia. Qed.

Lemma cells_snoc (b : buffer) :
  elems (cells b) ≠ [] → ∃ ls l, cells b = Some (ls ++ [l]).
Proof.
  intros Hne. destruct (cells b) as [ls|] eqn:E; simpl in Hne; [|done].
  destruct (exists_last Hne) as (ls' & l & ->). eauto.
Qed.

(** appendCell puts the cell at the end of the last line. *)
Lemma appendCell_last c b ls l :
  cells b = Some (ls ++ [l]) →
  appendCell c b =
    Ok (set_col (col b ⊕ cell.width c) (set_cells (Some (ls ++ [l ++ [c]])) b)).
Proof.
  intros Hc. unfold appendCell. rewrite Hc. simpl elems.
  rewrite length_app. simpl length.
  replace (Nat.pred (length ls + 1)) with (length ls) by lia.
  rewrite list_lookup_middle by done.
  replace (length ls) with (length ls + 0)%nat at 1 by lia.
  rewrite insert_app_r. done.
Qed.

(** The loop of newline writes the indent, one blank at a time. *)
Lemma indent_loop k : ∀ i b ls j,
  cells b = Some (ls ++ [replicate j blank]) →
  col b = Z.of_nat j →
  Z.of_nat (j + k) ≤ max_int →
  forM i k (λ _ b, appendCell blank b) b =
    Ok (set_col (Z.of_nat (j + k)) (set_cells (Some (ls ++ [replicate (j + k) blank])) b)).
Proof.
  induction k as [|k IH]; intros i b ls j Hc Hcol Hk.
  - simpl. rewrite Nat.add_0_r. destruct b; simpl in *; subst. done.
  - simpl. rewrite (appendCell_last _ _ _ _ Hc). simpl.
    rewrite (IH _ _ ls (S j)).
    + replace (S j + k)%nat with (j + S k)%nat by lia. done.
    + simpl. replace (replicate j blank ++ [blank]) with (replicate (S j) blank); [done|].
      clear. induction j as [|j IHj]; simpl; [done|]. by rewrite <- IHj.
    + simpl. rewrite Hcol. unwrap. lia.
    + lia.
Qed.

(** newline, as the spec words it: a new last line that holds the indent. *)
Lemma newline_startNewLine b :
  0 ≤ width b → indent b ≤ max_int → newline b = Ok (startNewLine b).
Proof.
  intros Hw Hi. unfold newline, appendLine.
  destruct (Z.ltb_spec (width b) 0) as [?|_]; [lia|].
  assert (Ha : go_append (cells b) [[]] = Some (elems (cells b) ++ [[]]))
    by (by destruct (cells b)).
  rewrite Ha. simpl. unfold startNewLine.
  destruct (Z.ltb_spec 0 (indent b)) as [Hpos | Hneg].
  - unfold for_range.
    rewrite (indent_loop _ _ _ (elems (cells b)) 0%nat); simpl; try done; try lia.
    rewrite Z.sub_0_r, Z2Nat.id, Z.max_r by lia. done.
  - rewrite Z.max_l by lia.
    replace (Z.to_nat (indent b)) with 0%nat by lia. done.
Qed.

(** appendCell, as the spec words it. *)
Lemma appendCell_placeCell c b :
  elems (cells b) ≠ [] →
  is_int (col b + cell.width c) →
  appendCell c b = Ok (placeCell c b).
Proof.
  intros Hne Hint. destruct (cells_snoc b Hne) as (ls & l & Hc).
  rewrite (appendCell_last _ _ _ _ Hc). unfold placeCell. rewrite Hc. simpl elems.
  rewrite removelast_last, last_snoc. simpl. unwrap. done.
Qed.

Section Write.
Context {env : Env}.

(** Apart from one case, write does what the spec says, on a buffer that
    has a line and whose coordinates are ints away from the end of the int
    range, and for cell widths that fit a byte: a line feed starts a new line
    that holds the indent; a rune that does not print leaves the buffer as
    it is; any other rune is placed in the current line, after a new line has
    been started when the column plus its width exceeds the buffer's width,
    and followed by a new line when it fills the line exactly and
    newlineWhenFull is set. The case apart is the cell that is placed after
    a new line and fills that line while newlineWhenFull is set. *)
Lemma write_meets_spec_elsewhere (r : rune) (tag : string) (b : buffer) :
  screenInts b →
  elems (cells b) ≠ [] →
  (IsPrint r = true → 0 ≤ wcwidth r < 256) →
  ¬ (r ≠ 10 ∧ IsPrint r = true ∧ width b < col b + wcwidth r ∧
     Z.max 0 (indent b) + wcwidth r = width b ∧ newlineWhenFull b = true) →
  write r tag b = Ok (writeSpec r tag b).
Proof.
  intros (Hw & Hcol & Hind) Hne Hwd Hcase. unfold write, writeSpec.
  destruct (Z.eqb_spec r 10) as [Hr | Hr];
    [apply newline_startNewLine; unfold max_int in *; lia|].
  destruct (IsPrint r) eqn:Hp; simpl; [|done].
  specialize (Hwd eq_refl).
  unfold to_byte. rewrite Z.mod_small by lia.
  unfold min_int, max_int in *. unwrap.
  rewrite Z.gtb_ltb.
  destruct (Z.ltb_spec (width b) (col b + wcwidth r)) as [Hwide | Hfits].
  - rewrite newline_startNewLine by (unfold max_int; lia). simpl.
    rewrite appendCell_placeCell;
      [| simpl; by destruct (elems (cells b))
       | unfold is_int, min_int, max_int; simpl; lia].
    simpl.
    destruct (Z.eqb_spec (Z.max 0 (indent b) + wcwidth r) (width b)) as [Hfull | _];
      [|done].
    destruct (newlineWhenFull b) eqn:Hn; [|done].
    exfalso. apply Hcase. done.
  - rewrite appendCell_placeCell by (done || (unfold is_int, min_int, max_int; simpl; lia)).
    simpl.
    destruct ((col b + wcwidth r =? width b) && newlineWhenFull b); [|done].
    apply newline_startNewLine; simpl; unfold max_int; lia.
Qed.

(** C3, where write leaves the claim: a rune that prints and does not fit
    the current line is placed after a new line; when it fills that line
    exactly (the indent plus its width is the width of the buffer) and
    newlineWhenFull is set, the claim has a second new line started, and
    write starts none: it tests for the full line only where the cell went
    into the current line. The buffer is left with its column at its width
    and its last line full. *)
Theorem write_after_wrap_skips_wrap_when_full (r : rune) (tag : string) (b : buffer) :
  screenInts b →
  elems (cells b) ≠ [] →
  r ≠ 10 → IsPrint r = true → 0 ≤ wcwidth r < 256 →
  width b < col b + wcwidth r →
  Z.max 0 (indent b) + wcwidth r = width b →
  newlineWhenFull b = true →
  ∃ b', write r tag b = Ok b' ∧
        b' = placeCell (cell.mk r (wcwidth r) tag) (startNewLine b) ∧
        col b' = width b' ∧ newlineWhenFull b' = true ∧
        writeSpec r tag b = startNewLine b' ∧
        write r tag b ≠ Ok (writeSpec r tag b).
Proof.
  intros (Hw & Hcol & Hind) Hne Hr Hp Hwd Hwide Hfull Hn.
  assert (Hwrite : write r tag b =
                   Ok (placeCell (cell.mk r (wcwidth r) tag) (startNewLine b))).
  { unfold write. rewrite (proj2 (Z.eqb_neq r 10) Hr), Hp. simpl.
    unfold to_byte. rewrite Z.mod_small by lia.
    unfold min_int, max_int in *. unwrap.
    rewrite (proj2 (Z.ltb_lt (width b) (col b + wcwidth r)) Hwide).
    rewrite newline_startNewLine by (unfold max_int; lia). simpl.
    apply appendCell_placeCell.
    - simpl. by destruct (elems (cells b)).
    - unfold is_int, min_int, max_int. simpl. lia. }
  assert (Hspec : writeSpec r tag b =
                  startNewLine (placeCell (cell.mk r (wcwidth r) tag) (startNewLine b))).
  { unfold writeSpec. rewrite (proj2 (Z.eqb_neq r 10) Hr), Hp. simpl.
    rewrite Z.gtb_ltb, (proj2 (Z.ltb_lt (width b) (col b + wcwidth r)) Hwide).
    simpl. rewrite (proj2 (Z.eqb_eq _ _) Hfull), Hn. done. }
  exists (placeCell (cell.mk r (wcwidth r) tag) (startNewLine b)).
  split_and!; [done | done | simpl; lia | done | done |].
  rewrite Hwrite, Hspec. intros Heq.
  apply (f_equal (λ o, match o with
                       | Ok b => length (elems (cells b))
                       | Panic _ => 0%nat
                       end)) in Heq.
  revert Heq. simpl. rewrite !length_app. simpl. lia.
Qed.

End Write.

(** [write_after_wrap_skips_wrap_when_full] in a buffer 3 columns wide with
    an indent of 1, as refresh makes it for the prompt [a] in a terminal of 3
    columns: after the rune [b], the ideograph U+4E2D, 2 columns wide, goes
    to a new line, after the indent, and fills it. *)
Lemma write_after_wrap_skips_wrap_when_full_witness :
  let b := mkBuffer 3 2 1 true (Some [[cell.mk 97 1 "1"; cell.mk 98 1 ""]]) (pos.mk 0 0) in
  ∃ b', write (env:=wideEnv) 20013 "" b = Ok b' ∧
        b' = placeCell (cell.mk 20013 2 "") (startNewLine b) ∧
        col b' = width b' ∧ newlineWhenFull b' = true ∧
        writeSpec (env:=wideEnv) 20013 "" b = startNewLine b' ∧
        write (env:=wideEnv) 20013 "" b ≠ Ok (writeSpec (env:=wideEnv) 20013 "" b).
Proof.
  intros b.
  apply (write_after_wrap_skips_wrap_when_full (env:=wideEnv) 20013 "" b).
  - unfold screenInts, min_int, max_int. simpl. lia.
  - discriminate.
  - lia.
  - by vm_compute.
  - by vm_compute.
  - by vm_compute.
  - by vm_compute.
  - done.
Defined.

(** The same, evaluated: write leaves the column at the width, on a full
    last line; the claim's wording has the line after it started. *)
Example write_after_wrap_evaluated :
  let b := mkBuffer 3 2 1 true (Some [[cell.mk 97 1 "1"; cell.mk 98 1 ""]]) (pos.mk 0 0) in
  write (env:=wideEnv) 20013 "" b =
    Ok (mkBuffer 3 3 1 true
          (Some [[cell.mk 97 1 "1"; cell.mk 98 1 ""]; [blank; cell.mk 20013 2 ""]])
          (pos.mk 0 0)) ∧
  writeSpec (env:=wideEnv) 20013 "" b =
    mkBuffer 3 1 1 true
      (Some [[cell.mk 97 1 "1"; cell.mk 98 1 ""]; [blank; cell.mk 20013 2 ""]; [blank]])
      (pos.mk 0 0).
Proof. split; by vm_compute. Qed.

(** Where the cell goes into the current line, write is the claim's
    wording: on a buffer 2 columns wide that holds one blank, the rune fills
    the line, and newlineWhenFull starts the next one. *)
Example write_fills_the_line :
  write (env:=asciiEnv) 97 "1" (mkBuffer 2 1 0 true (Some [[blank]]) (pos.mk 0 0)) =
  Ok (mkBuffer 2 0 0 true (Some [[blank; cell.mk 97 1 "1"]; []]) (pos.mk 0 0)).
Proof.
  rewrite (write_meets_spec_elsewhere (env:=asciiEnv) 97 "1").
  - reflexivity.
  - unfold screenInts, min_int, max_int. simpl. lia.
  - discriminate.
  - simpl. lia.
  - simpl. lia.
Qed.

(** ** Width safety *)

Section WidthSafety.
Context {env : Env}.
Variable w : Z.
Hypothesis w_range : 2 ≤ w ≤ max_int - 2.
Hypothesis wcwidth_range : ∀ r, IsPrint r = true → 0 ≤ wcwidth r ≤ 2.

Lemma fitsWidth_widthSafe b : fitsWidth w b → widthSafe b.
Proof.
  intros (Hw & _ & ls & l & Hc & Hcol & Hr & Hall). unfold widthSafe.
  rewrite Hc, Hw. simpl. apply Forall_app. split; [done|].
  apply Forall_singleton. lia.
Qed.

Lemma appendCell_fits c b :
  fitsWidth w b → 0 ≤ cell.width c → col b + cell.width c ≤ w →
  ∃ b', appendCell c b = Ok b' ∧ fitsWidth w b' ∧
        col b' = col b + cell.width c ∧ newlineWhenFull b' = newlineWhenFull b.
Proof.
  intros (Hw & Hi & ls & l & Hc & Hcol & Hr & Hall) Hc0 Hroom.
  rewrite (appendCell_last _ _ _ _ Hc). eexists. split; [done|].
  unfold max_int in *. unwrap. simpl. repeat split; try done.
  exists ls, (l ++ [c]). rewrite lineWidth_app. simpl. repeat split; try done; lia.
Qed.

Lemma newline_fits b :
  fitsWidth w b →
  ∃ b', newline b = Ok b' ∧ fitsWidth w b' ∧ col b' + 2 ≤ w ∧
        newlineWhenFull b' = newlineWhenFull b.
Proof.
  intros (Hw & Hi & ls & l & Hc & Hcol & Hr & Hall).
  rewrite newline_startNewLine by lia. eexists. split; [done|].
  unfold startNewLine. rewrite Hc. simpl. repeat split; try done; try lia.
  exists (ls ++ [l]), (replicate (Z.to_nat (indent b)) blank).
  rewrite lineWidth_blanks. simpl. split_and!; try done; try lia.
  apply Forall_app. split; [done|]. apply Forall_singleton. lia.
Qed.

Lemma write_fits r attr b :
  fitsWidth w b → ∃ b', write r attr b = Ok b' ∧ fitsWidth w b'.
Proof.
  intros Hb. unfold write.
  destruct (r =? 10).
  { destruct (newline_fits b Hb) as (b' & -> & Hb' & _). eauto. }
  destruct (IsPrint r) eqn:Hp; simpl; [|eauto].
  pose proof (wcwidth_range r Hp) as Hwd.
  pose proof Hb as (Hw & Hi & ls & l & Hc & Hcol & Hr & Hall).
  unfold to_byte. rewrite Z.mod_small by lia.
  unfold max_int in *. unwrap. rewrite Hw.
  destruct (Z.ltb_spec w (col b + wcwidth r)) as [Hwide | Hroom].
  - destruct (newline_fits b Hb) as (b1 & -> & Hb1 & Hcol1 & _). simpl.
    destruct (appendCell_fits (cell.mk r (wcwidth r) attr) b1 Hb1) as (b2 & -> & Hb2 & _);
      simpl; [lia | lia | eauto].
  - destruct (appendCell_fits (cell.mk r (wcwidth r) attr) b Hb) as (b2 & -> & Hb2 & _);
      simpl; [lia | lia |].
    destruct ((col b2 =? width b2) && newlineWhenFull b2); [|eauto].
    destruct (newline_fits b2 Hb2) as (b3 & -> & Hb3 & _). eauto.
Qed.

Lemma writes_fits s attr : ∀ b,
  fitsWidth w b → ∃ b', writes s attr b = Ok b' ∧ fitsWidth w b'.
Proof.
  induction s as [|r s IH]; intros b Hb; simpl; [eauto|].
  destruct (write_fits r attr b Hb) as (b1 & -> & Hb1). simpl. auto.
Qed.

Lemma step_fits o b :
  opFits w o → fitsWidth w b → ∃ b', step o b = Ok b' ∧ fitsWidth w b'.
Proof.
  intros Ho Hb. destruct o as [r attr | s attr | n attr | | n | f |]; simpl in *.
  - by apply write_fits.
  - by apply writes_fits.
  - unfold writePadding. destruct (Z.ltb_spec n 0); [lia|]. by apply writes_fits.
  - destruct (newline_fits b Hb) as (b' & -> & Hb' & _). eauto.
  - eexists. split; [done|]. destruct Hb as (Hw & Hi & Hrest). by repeat split.
  - eexists. split; [done|]. destruct Hb as (Hw & Hi & Hrest). by repeat split.
  - eexists. split; [done|]. destruct Hb as (Hw & Hi & Hrest). by repeat split.
Qed.

Lemma run_fits ops : ∀ b,
  Forall (opFits w) ops → fitsWidth w b → ∃ b', run ops b = Ok b' ∧ fitsWidth w b'.
Proof.
  induction ops as [|o ops IH]; intros b Hops Hb; simpl; [eauto|].
  inversion Hops as [|? ? Ho Hops']; subst.
  destruct (step_fits o b Ho Hb) as (b1 & -> & Hb1). simpl. auto.
Qed.

End WidthSafety.

(** C2, the claim as stated fails: in a buffer 5 columns wide, an indent of 7
    makes newline write a line of 7 blanks. *)
Lemma indent_beyond_width_overflows :
  let b0 := mkBuffer 5 0 0 false (Some [[]]) (pos.mk 0 0) in
  let b := mkBuffer 5 7 7 false (Some [[]; replicate 7 blank]) (pos.mk 0 0) in
  newBuffer 5 = Ok b0 ∧
  run (env:=asciiEnv) [OpSetIndent 7; OpNewline] b0 = Ok b ∧
  lineWidth (replicate 7 blank) = 7 ∧
  ¬ widthSafe b.
Proof.
  split; [by vm_compute|]. split; [by vm_compute|]. split; [by vm_compute|].
  unfold widthSafe. simpl elems. intros H.
  apply Forall_cons in H as [_ H]. apply Forall_cons in H as [H _].
  vm_compute in H. by apply H.
Qed.

(** C2, amended: when no cell is wider than 2 columns, the buffer is at
    least 2 columns wide, every indent that is set leaves room for a cell of
    2 columns, and no padding is negative, every sequence of write, writes,
    writePadding and newline on a buffer made by newBuffer runs to its end
    and leaves every line at most as wide as the buffer. *)
Theorem width_safety {env : Env} (w : Z) (ops : list op) :
  2 ≤ w ≤ max_int - 2 →
  (∀ r, IsPrint r = true → 0 ≤ wcwidth r ≤ 2) →
  Forall (opFits w) ops →
  ∃ b0 b, newBuffer w = Ok b0 ∧ run ops b0 = Ok b ∧ width b = w ∧ widthSafe b.
Proof.
  intros Hw Hwd Hops. unfold newBuffer.
  destruct (Z.ltb_spec w 0) as [?|_]; [lia|].
  eexists.
  destruct (run_fits w Hw Hwd ops (mkBuffer w 0 0 false (Some [[]]) (pos.mk 0 0)) Hops)
    as (b & Hrun & Hb).
  { repeat split; simpl; try lia. exists [], []. simpl. repeat split; try done; lia. }
  exists b. repeat split; try done.
  - by destruct Hb.
  - by eapply fitsWidth_widthSafe.
Qed.

(** [width_safety] on a buffer 5 columns wide with an indent of 2. *)
Lemma width_safety_witness :
  ∃ b0 b, newBuffer 5 = Ok b0 ∧
          run (env:=asciiEnv)
            [OpSetIndent 2; OpSetNewlineWhenFull true; OpWrites [97; 98; 99; 100; 101; 102] "";
             OpWritePadding 1 ""; OpNewline; OpWrite 103 ""] b0 = Ok b ∧
          width b = 5 ∧ widthSafe b.
Proof.
  apply (width_safety (env:=asciiEnv) 5).
  - unfold max_int. lia.
  - intros r _. simpl. lia.
  - repeat constructor; simpl; lia.
Defined.

(** ** Stacking buffers *)

(** C4, the claim as stated fails: extend leaves the dot of the receiver
    where it was; it does not take the dot of the buffer it appends, which
    would be at line 1, column 3 here. *)
Lemma extend_keeps_own_dot :
  let b := mkBuffer 5 2 0 true (Some [[blank; blank]]) (pos.mk 0 2) in
  let b2 := mkBuffer 5 3 0 false (Some [[blank; blank; blank]]) (pos.mk 0 3) in
  ∃ b', extend (Some b) (Some b2) = Ok (Some b') ∧
        dot b' = pos.mk 0 2 ∧
        dot b' ≠ pos.mk (pos.line (dot b2) + len (elems (cells b))) (pos.col (dot b2)).
Proof.
  eexists. split; [by vm_compute|]. split; [by vm_compute|]. by vm_compute.
Qed.

(** C4, amended: for a buffer [b2] that is not nil and whose cells are not
    nil, extend appends the lines of [b2] after those of [b], takes the
    column of [b2], and leaves the dot, the width, the indent and
    newlineWhenFull of [b] as they were; for a nil [b2], or one whose cells
    are nil, it leaves [b] unchanged. *)
Theorem extend_appends_lines (b b2 : buffer) :
  (∀ ls2, cells b2 = Some ls2 →
     ∃ b', extend (Some b) (Some b2) = Ok (Some b') ∧
           elems (cells b') = elems (cells b) ++ ls2 ∧
           col b' = col b2 ∧
           dot b' = dot b ∧
           width b' = width b ∧ indent b' = indent b ∧
           newlineWhenFull b' = newlineWhenFull b) ∧
  (cells b2 = None → extend (Some b) (Some b2) = Ok (Some b)) ∧
  extend (Some b) None = Ok (Some b).
Proof.
  split; [|split]; [| |done].
  - intros ls2 H2. unfold extend. rewrite H2. simpl. eexists. split; [done|].
    simpl. split_and!; try done.
    destruct (cells b) as [ls|], ls2; simpl; done.
  - intros H2. unfold extend. by rewrite H2.
Qed.

(** ** The completion grid *)

(** C5, the claim as stated fails: in the grid of the example, row 0 of
    column 1 shows candidate 2; candidate 3 is one row further down. *)
Lemma grid_row0_col1_is_candidate_2 :
  gridShape (env:=asciiEnv)
    (mkCandidate <$> [[97; 97; 97]; [98; 98; 98; 98; 98]; [99; 99];
                      [100; 100; 100; 100]; [101; 101; 101]]) 20 = Ok (5, 3, 2) ∧
  gridIndex 2 0 1 = 2 ∧ gridIndex 2 0 1 ≠ 3 ∧ gridIndex 2 1 1 = 3.
Proof. split_and!; by vm_compute. Qed.

(** C5, amended: 5 candidates of widths 3, 5, 2, 4, 3 in a buffer 20
    columns wide (the margin between columns is 2) are laid out in columns 5
    wide, 3 columns and 2 rows, and candidate 3 is the one at row 1 of
    column 1, and at no other place of the grid. *)
Theorem grid_example {env : Env} (cands : list candidate) :
  (λ c, wcwidths (text c)) <$> cands = [3; 5; 2; 4; 3] →
  gridShape cands 20 = Ok (5, 3, 2) ∧
  (∀ i j, 0 ≤ i < 2 → 0 ≤ j < 3 → gridIndex 2 i j = 3 ↔ i = 1 ∧ j = 1).
Proof.
  intros Hw. split.
  - destruct cands as [|c0 [|c1 [|c2 [|c3 [|c4 [|c5 cands]]]]]]; try discriminate Hw.
    injection Hw as H0 H1 H2 H3 H4.
    unfold gridShape. simpl foldl. rewrite H0, H1, H2, H3, H4. by vm_compute.
  - intros i j Hi Hj. unfold gridIndex. unwrap. lia.
Qed.

(** [grid_example] for candidates of printable ASCII. *)
Lemma grid_example_witness :
  gridShape (env:=asciiEnv)
    (mkCandidate <$> [[97; 97; 97]; [98; 98; 98; 98; 98]; [99; 99];
                      [100; 100; 100; 100]; [101; 101; 101]]) 20 = Ok (5, 3, 2) ∧
  (∀ i j, 0 ≤ i < 2 → 0 ≤ j < 3 → gridIndex 2 i j = 3 ↔ i = 1 ∧ j = 1).
Proof. apply (grid_example (env:=asciiEnv)). by vm_compute. Defined.

(** ** The frame *)

Lemma len_nonneg {A} (l : list A) : 0 ≤ len l.
Proof. unfold len. lia. Qed.

Lemma nlines_nonneg p : 0 ≤ nlines p.
Proof. destruct p; simpl; [apply len_nonneg | lia]. Qed.

Lemma lines_sum bufs :
  foldr (λ p n, nlines p + n) 0 bufs ≤ max_int →
  lines bufs = foldr (λ p n, nlines p + n) 0 bufs.
Proof.
  unfold lines. intros Hsum.
  assert (Hgen : ∀ acc, 0 ≤ acc → acc + foldr (λ p n, nlines p + n) 0 bufs ≤ max_int →
    foldl (λ l buf, match buf with
                    | Some b => l ⊕ len (elems (cells b))
                    | None => l
                    end) acc bufs = acc + foldr (λ p n, nlines p + n) 0 bufs).
  { clear Hsum. induction bufs as [|p bufs IH]; intros acc Hacc Hsum; simpl in *; [lia|].
    pose proof (nlines_nonneg p) as Hp.
    assert (Hrest : 0 ≤ foldr (λ p n, nlines p + n) 0 bufs).
    { clear. induction bufs as [|q bufs IH]; simpl; [lia|].
      pose proof (nlines_nonneg q). lia. }
    destruct p as [b|]; simpl in *.
    - unwrap. rewrite IH; lia.
    - rewrite IH; lia. }
  rewrite Hgen; lia.
Qed.

Section Frame.
Context {env : Env}.

(** C6, amended: when the terminal height is at least 1 and smaller than
    the line count of the input-line buffer, the dot of that buffer is on one
    of its lines and at least [height - 1] lines down, and no navigation
    listing is shown, the frame is the input-line buffer cut to the [height]
    lines that end with the line of the dot: it has exactly [height] lines,
    its last line is the line of the dot, the dot is on that last line, and
    nothing of the mode, tips and listing buffers is in it. *)
Theorem frame_trimmed_to_height (width height : Z) (bufLine : buffer)
    (bufMode bufTips : option buffer) (comp : option completion)
    (ls : list (list cell)) :
  cells bufLine = Some ls →
  len ls + nlines bufMode + nlines bufTips ≤ max_int →
  1 ≤ height < len ls →
  height - 1 ≤ pos.line (dot bufLine) < len ls →
  let dotLine := pos.line (dot bufLine) in
  ∃ buf, frame width height bufLine bufMode bufTips comp None = Ok (Some buf, None) ∧
         cells buf = Some (take (Z.to_nat height) (drop (Z.to_nat (dotLine + 1 - height)) ls)) ∧
         len (elems (cells buf)) = height ∧
         elems (cells buf) !! Z.to_nat (height - 1) = ls !! Z.to_nat dotLine ∧
         dot buf = pos.mk (height - 1) (pos.col (dot bufLine)).
Proof.
  intros Hc Hsum Hh Hdot dotLine.
  pose proof (nlines_nonneg bufMode) as Hm. pose proof (nlines_nonneg bufTips) as Ht.
  unfold frame, fitHeight.
  rewrite !lines_sum by (simpl; rewrite ?Hc; simpl; lia).
  simpl foldr. rewrite Hc. simpl elems.
  destruct (Z.leb_spec (len ls + (nlines bufMode + (nlines bufTips + 0))) height); [lia|].
  destruct (Z.leb_spec (len ls + (nlines bufTips + 0)) height); [lia|].
  destruct (Z.leb_spec (len ls + 0) height); [lia|].
  destruct (Z.leb_spec 1 height); [|lia].
  fold dotLine. unfold max_int in *.
  assert (Hlow : dotLine ⊕ 1 ⊖ height = dotLine + 1 - height) by (unwrap; lia).
  assert (Hhigh : dotLine ⊕ 1 = dotLine + 1) by (unwrap; lia).
  rewrite Hlow, Hhigh.
  unfold trimToLines, slice_range. rewrite Hc. simpl elems.
  destruct (Z.ltb_spec (len ls) (dotLine + 1 - height)); [lia|].
  destruct (Z.ltb_spec (dotLine + 1) 0); [lia|]. simpl andb.
  destruct (Z.ltb_spec (dotLine + 1 - height) 0); [lia|].
  destruct (Z.ltb_spec (dotLine + 1) (dotLine + 1 - height)); [lia|].
  destruct (Z.ltb_spec (len ls) (dotLine + 1)); [lia|].
  simpl.
  replace (dotLine + 1 - (dotLine + 1 - height)) with height by lia.
  eexists. split; [done|]. simpl.
  assert (Hlen : length (take (Z.to_nat height) (drop (Z.to_nat (dotLine + 1 - height)) ls))
                 = Z.to_nat height).
  { rewrite length_take, length_drop. unfold len in *. lia. }
  split_and!.
  - done.
  - unfold len. rewrite Hlen. lia.
  - rewrite lookup_take_lt by lia. rewrite lookup_drop. f_equal. lia.
  - f_equal. fold dotLine. unwrap. lia.
Qed.

End Frame.

(** [frame_trimmed_to_height] on 5 lines with the dot on line 3, for a
    terminal 2 lines high: lines 2 and 3 are kept. *)
Lemma frame_trimmed_to_height_witness :
  let ls := [[cell.mk 97 1 ""]; [cell.mk 98 1 ""]; [cell.mk 99 1 ""];
             [cell.mk 100 1 ""]; [cell.mk 101 1 ""]] in
  let bufLine := mkBuffer 1 1 0 true (Some ls) (pos.mk 3 0) in
  ∃ buf, frame (env:=asciiEnv) 1 2 bufLine None None None None = Ok (Some buf, None) ∧
         cells buf = Some (take (Z.to_nat 2) (drop (Z.to_nat (3 + 1 - 2)) ls)) ∧
         len (elems (cells buf)) = 2 ∧
         elems (cells buf) !! Z.to_nat (2 - 1) = ls !! Z.to_nat 3 ∧
         dot buf = pos.mk (2 - 1) 0.
Proof.
  intros ls bufLine.
  apply (frame_trimmed_to_height (env:=asciiEnv) 1 2 bufLine None None None ls).
  - done.
  - by vm_compute.
  - by vm_compute.
  - by vm_compute.
Defined.

(** C6, the claim as stated fails: the lines kept are those that end with
    the line of the dot, and not a window with that line in its middle. With
    5 lines, the dot on line 2 and a height of 3, the frame holds lines 0 to
    2, while the window selector centers lines 1 to 3 on line 2. *)
Lemma frame_window_ends_at_dot_line :
  let ls := [[cell.mk 97 1 ""]; [cell.mk 98 1 ""]; [cell.mk 99 1 ""];
             [cell.mk 100 1 ""]; [cell.mk 101 1 ""]] in
  let bufLine := mkBuffer 1 1 0 true (Some ls) (pos.mk 2 0) in
  findWindow 5 2 3 = (1, 4) ∧
  ∃ buf, frame (env:=asciiEnv) 1 3 bufLine None None None None = Ok (Some buf, None) ∧
         cells buf = Some (take 3 ls) ∧
         cells buf ≠ Some (take 3 (drop 1 ls)).
Proof.
  split; [by vm_compute|].
  eexists. split; [by vm_compute|]. split; by vm_compute.
Qed.

(** With no height at all, nothing is left of the three buffers. *)
Lemma fitHeight_zero (bufLine : buffer) (bufMode bufTips : option buffer) :
  elems (cells bufLine) ≠ [] →
  len (elems (cells bufLine)) + nlines bufMode + nlines bufTips ≤ max_int →
  fitHeight 0 bufLine bufMode bufTips = Ok (0, None, None, None).
Proof.
  intros Hne Hsum.
  pose proof (nlines_nonneg bufMode) as Hm. pose proof (nlines_nonneg bufTips) as Ht.
  assert (Hl : 1 ≤ len (elems (cells bufLine))).
  { unfold len. destruct (elems (cells bufLine)); [done | simpl; lia]. }
  unfold fitHeight. rewrite !lines_sum by (simpl; lia). simpl foldr.
  destruct (Z.leb_spec (len (elems (cells bufLine)) + (nlines bufMode + (nlines bufTips + 0))) 0);
    [lia|].
  destruct (Z.leb_spec (len (elems (cells bufLine)) + (nlines bufTips + 0)) 0); [lia|].
  destruct (Z.leb_spec (len (elems (cells bufLine)) + 0) 0); [lia|].
  done.
Qed.

(** C7: with a terminal height of 0, refresh does not return: every buffer
    is set to nil, and the nil frame is dereferenced, by extend when there is
    a navigation listing to append, by commitBuffer otherwise. *)
Theorem refresh_height_zero_panics {env : Env} (w : writer) (width : Z) (bufLine : buffer)
    (bufMode bufTips : option buffer) (comp : option completion) (nav : option navigation) :
  elems (cells bufLine) ≠ [] →
  len (elems (cells bufLine)) + nlines bufMode + nlines bufTips ≤ max_int →
  ∃ p, refresh w width 0 bufLine bufMode bufTips comp nav = Panic p.
Proof.
  intros Hne Hsum. unfold refresh, frame.
  rewrite fitHeight_zero by done. simpl.
  destruct (listing width 0 comp nav) as [[bufListing completionLines]|p]; simpl; [|eauto].
  destruct bufListing as [b|]; simpl.
  - destruct (cells b); simpl; [eauto|].
    unfold commitBuffer. destruct (oldBuf w); simpl; eauto.
  - unfold commitBuffer. destruct (oldBuf w); simpl; eauto.
Qed.

(** [refresh_height_zero_panics] on an empty input line in a terminal that
    reports 80 columns and 0 rows. *)
Lemma refresh_height_zero_panics_witness :
  ∃ p, refresh (env:=asciiEnv) (mkWriter 1 (Some (mkBuffer 0 0 0 false (Some [[]]) (pos.mk 0 0))))
         80 0 (mkBuffer 80 0 0 true (Some [[]]) (pos.mk 0 0)) None None None None = Panic p.
Proof.
  apply (refresh_height_zero_panics (env:=asciiEnv)).
  - done.
  - by vm_compute.
Defined.

(** The same on an empty prompt in an 80 column terminal, evaluated. *)
Example refresh_height_zero_nil_dereference :
  refresh (env:=asciiEnv) (mkWriter 1 (Some (mkBuffer 0 0 0 false (Some [[]]) (pos.mk 0 0))))
    80 0 (mkBuffer 80 0 0 true (Some [[]]) (pos.mk 0 0)) None None None None
  = Panic NilDereference.
Proof. by vm_compute. Qed.

(** Two more ways in which refresh leaves the frame of C6, both outside of
    what the amended claim covers. When the dot is nearer to the top than the
    height, the lower bound of the lines to keep is negative: *)
Example frame_trim_above_top :
  frame (env:=asciiEnv) 1 2
    (mkBuffer 1 1 0 true (Some [[cell.mk 97 1 ""]; [cell.mk 98 1 ""]; [cell.mk 99 1 ""]])
       (pos.mk 0 0)) None None None None
  = Panic SliceBoundsOutOfRange.
Proof. by vm_compute. Qed.

(** and a navigation context adds its listing, here one empty line, whatever
    the height. *)
Example frame_trim_with_navigation :
  ∃ buf,
    frame (env:=asciiEnv) 1 2
      (mkBuffer 1 1 0 true (Some [[cell.mk 97 1 ""]; [cell.mk 98 1 ""]; [cell.mk 99 1 ""]])
         (pos.mk 2 0)) None None None
      (Some (navigation.mk (mkNavColumn [] 0) (mkNavColumn [] 0)))
    = Ok (Some buf, None) ∧
    cells buf = Some [[cell.mk 98 1 ""]; [cell.mk 99 1 ""]; []].
Proof. eexists. split; by vm_compute. Qed.

(** ** The terminal writer *)

(** C10: when the write of the bytes fails, commitBuffer returns the error
    and the writer is as it was, old buffer included, so that the next commit
    moves the cursor up by the dot of the last frame that was written; when
    the write succeeds, the buffer committed is the new old buffer; and the
    old buffer only changes with a write that succeeded. *)
Theorem commit_failure_keeps_baseline {env : Env} (w : writer) (old buf : buffer) :
  oldBuf w = Some old →
  (∀ e, fileWrite (file w) (commitBytes old buf) = Some e →
        commitBuffer w (Some buf) = Ok (w, Some e)) ∧
  (fileWrite (file w) (commitBytes old buf) = None →
   commitBuffer w (Some buf) = Ok (mkWriter (file w) (Some buf), None)) ∧
  (∀ w' r, commitBuffer w (Some buf) = Ok (w', r) → oldBuf w' ≠ oldBuf w →
           r = None ∧ oldBuf w' = Some buf ∧
           fileWrite (file w) (commitBytes old buf) = None).
Proof.
  intros Hold. unfold commitBuffer. rewrite Hold. simpl. split_and!.
  - intros e He. by rewrite He.
  - intros He. by rewrite He.
  - intros w' r. destruct (fileWrite (file w) (commitBytes old buf)) as [e|] eqn:He.
    + intros [= <- <-] Hne. by rewrite Hold in Hne.
    + intros [= <- <-] _. done.
Qed.

(** [commit_failure_keeps_baseline] on a terminal whose writes fail. *)
Lemma commit_failure_keeps_baseline_witness :
  let old := mkBuffer 80 2 0 true (Some [[blank; blank]; [blank; blank]]) (pos.mk 1 2) in
  let buf := mkBuffer 80 1 0 true (Some [[cell.mk 97 1 "1"]]) (pos.mk 0 1) in
  let w := mkWriter 1 (Some old) in
  commitBuffer (env:=brokenTerminalEnv) w (Some buf) = Ok (w, Some (PathError 5)).
Proof.
  intros old buf w.
  apply (commit_failure_keeps_baseline (env:=brokenTerminalEnv) w old buf); reflexivity.
Defined.

(** The bytes of a commit: up by the line of the old dot, erase, the cells
    with their styles, and the move to the new dot. *)
Example commitBytes_example :
  commitBytes
    (mkBuffer 80 2 0 true (Some [[blank; blank]; [blank; blank]]) (pos.mk 1 2))
    (mkBuffer 80 1 0 true (Some [[cell.mk 97 1 "1"]]) (pos.mk 0 1))
  = ESC +:+ "[1A" +:+ CR +:+ ESC +:+ "[J" +:+ ESC +:+ "[m" +:+ ESC +:+ "[1m" +:+ "a"
    +:+ ESC +:+ "[m" +:+ ESC +:+ "[2G".
Proof. by vm_compute. Qed.

(** ** Indexing a list value *)

Section Indexing.
Import Eval.
Context {env : Eval.Env}.

(** An index that reads as the int [i] selects element [i], or element
    [i + n] when [i] is negative. *)
Lemma intIndexWithin_in_range (idx : Value) (n i : Z) :
  Atoi (ToString idx) = inl i →
  n ≤ max_int →
  - n ≤ i < n →
  intIndexWithin idx n = Ok (if i <? 0 then i + n else i).
Proof.
  intros Hi Hn Hr. unfold intIndexWithin, intIndex. rewrite Hi. simpl.
  unfold max_int in *.
  destruct (Z.ltb_spec i 0); unwrap; by decide_cmp.
Qed.

Lemma index_lookup {A} (l : list A) (i : Z) (a : A) :
  0 ≤ i → l !! Z.to_nat i = Some a → index l i = Ok a.
Proof.
  intros Hi Hl. unfold index, len.
  apply lookup_lt_Some in Hl as Hlt.
  destruct (Z.ltb_spec i 0); [lia|].
  destruct (Z.leb_spec (Z.of_nat (length l)) i); [lia|]. simpl. by rewrite Hl.
Qed.

(** C8: on a list of [n] values, for an index that reads as an int [i] with
    [-n ≤ i < n], IndexSet stores the value and IndexOne with the same index
    returns it, through the same List and through every copy of it. *)
Theorem index_set_then_index_one (l : List) (idx v : Value)
    (σ : gmap positive (list Value)) (vs : list Value) (i : Z) :
  σ !! inner l = Some vs →
  len vs ≤ max_int →
  Atoi (ToString idx) = inl i →
  - len vs ≤ i < len vs →
  ∃ σ', IndexSet l idx v σ = Ok σ' ∧
        IndexOne l idx σ' = Ok v ∧
        ∀ l', inner l' = inner l → IndexOne l' idx σ' = Ok v.
Proof.
  intros Hσ Hn Hi Hr.
  set (k := if i <? 0 then i + len vs else i).
  assert (Hk : 0 ≤ k < len vs) by (unfold k; destruct (Z.ltb_spec i 0); lia).
  assert (Hlt : (Z.to_nat k < length vs)%nat) by (unfold len in Hk; lia).
  destruct (lookup_lt_is_Some_2 vs _ Hlt) as [x Hx].
  assert (Hone : ∀ l', inner l' = inner l →
            IndexOne l' idx (<[inner l := <[Z.to_nat k := v]> vs]> σ) = Ok v).
  { intros l' Hl'. unfold IndexOne. rewrite Hl', lookup_insert_eq. simpl.
    rewrite intIndexWithin_in_range with (i := i);
      [| done | unfold len in *; rewrite length_insert; lia
       | unfold len in *; rewrite length_insert; lia ].
    simpl.
    replace (if i <? 0 then i + len (<[Z.to_nat k := v]> vs) else i) with k
      by (unfold k, len; by rewrite length_insert).
    apply index_lookup; [lia|]. by apply list_lookup_insert_eq. }
  exists (<[inner l := <[Z.to_nat k := v]> vs]> σ). split_and!; [|by apply Hone|done].
  unfold IndexSet. rewrite Hσ. simpl.
  rewrite (intIndexWithin_in_range idx (len vs) i) by done. simpl. fold k.
  rewrite (index_lookup vs k x) by (done || lia). done.
Qed.

(** C9: on a list of [n] values, an index that reads as the int [n] or as
    the int [-n-1] makes IndexOne throw ErrIndexOutOfRange, an index that does
    not read as an int makes it throw ErrNeedIntIndex, which is another
    error, and in none of the three cases is a value returned. *)
Theorem index_one_errors (l : List) (idx : Value)
    (σ : gmap positive (list Value)) (vs : list Value) :
  σ !! inner l = Some vs →
  len vs ≤ max_int →
  (Atoi (ToString idx) = inl (len vs) →
   IndexOne l idx σ = Panic (Thrown ErrIndexOutOfRange)) ∧
  (Atoi (ToString idx) = inl (- len vs - 1) →
   IndexOne l idx σ = Panic (Thrown ErrIndexOutOfRange)) ∧
  (Atoi (ToString idx) = inr ErrSyntax →
   IndexOne l idx σ = Panic (Thrown ErrNeedIntIndex)) ∧
  ErrNeedIntIndex ≠ ErrIndexOutOfRange.
Proof.
  intros Hσ Hn. pose proof (len_nonneg vs) as H0. unfold max_int in *.
  unfold IndexOne, intIndexWithin, intIndex. rewrite Hσ. simpl.
  split_and!; [| | |done].
  - intros ->. simpl. by decide_cmp.
  - intros ->. simpl. unwrap. by decide_cmp.
  - intros ->. done.
Qed.

End Indexing.

(** [index_set_then_index_one] on the list [a b c] with the index -1. *)
Lemma index_set_then_index_one_witness :
  let σ : gmap positive (list string) := {[ 1%positive := ["a"; "b"; "c"]%string ]} in
  ∃ σ', Eval.IndexSet (env:=Eval.stringEnv) (Eval.mkList 1) "-1"%string "z"%string σ = Ok σ' ∧
        Eval.IndexOne (env:=Eval.stringEnv) (Eval.mkList 1) "-1"%string σ' = Ok "z"%string ∧
        ∀ l', Eval.inner l' = 1%positive →
              Eval.IndexOne (env:=Eval.stringEnv) l' "-1"%string σ' = Ok "z"%string.
Proof.
  intros σ.
  apply (index_set_then_index_one (env:=Eval.stringEnv) (Eval.mkList 1) "-1"%string "z"%string
           σ ["a"; "b"; "c"]%string (-1)).
  - done.
  - by vm_compute.
  - by vm_compute.
  - by vm_compute.
Defined.

(** [index_one_errors] on the list [a b c] with the indices 3, -4 and 1.5. *)
Lemma index_one_errors_witness :
  let σ : gmap positive (list string) := {[ 1%positive := ["a"; "b"; "c"]%string ]} in
  Eval.IndexOne (env:=Eval.stringEnv) (Eval.mkList 1) "3"%string σ
    = Panic (Thrown ErrIndexOutOfRange) ∧
  Eval.IndexOne (env:=Eval.stringEnv) (Eval.mkList 1) "-4"%string σ
    = Panic (Thrown ErrIndexOutOfRange) ∧
  Eval.IndexOne (env:=Eval.stringEnv) (Eval.mkList 1) "1.5"%string σ
    = Panic (Thrown ErrNeedIntIndex).
Proof.
  intros σ. split_and!.
  - refine (proj1 (index_one_errors (env:=Eval.stringEnv) (Eval.mkList 1) "3"%string σ
                     ["a"; "b"; "c"]%string _ _) _); by vm_compute.
  - refine (proj1 (proj2 (index_one_errors (env:=Eval.stringEnv) (Eval.mkList 1)
                            "-4"%string σ ["a"; "b"; "c"]%string _ _)) _); by vm_compute.
  - refine (proj1 (proj2 (proj2 (index_one_errors (env:=Eval.stringEnv) (Eval.mkList 1)
                                   "1.5"%string σ ["a"; "b"; "c"]%string _ _))) _);
      by vm_compute.
Defined.

(** ** Further properties of the window selector and of the frame *)

(** The two examples of the spec: a window centered on the selection, and a
    window held at the top of the list. *)
Theorem findWindow_examples :
  findWindow 100 50 10 = (45, 55) ∧ findWindow 100 2 10 = (0, 10).
Proof. split; by vm_compute. Qed.

(** A window of at least one line always holds the selected line. *)
Theorem findWindow_shows_selection (total selected max : Z) :
  total ≤ max_int →
  0 ≤ selected < total →
  1 ≤ max →
  (total > max → selected - max ÷ 2 + max ≤ max_int) →
  let '(low, high) := findWindow total selected max in
  low ≤ selected < high.
Proof.
  intros Ht Hs Hm Hov. unfold findWindow.
  destruct (Z.ltb_spec max total) as [Hlt | Hge]; [|lia].
  specialize (Hov ltac:(lia)).
  assert (Hq : 0 ≤ max ÷ 2 ∧ 2 * (max ÷ 2) ≤ max ∧ max < 2 * (max ÷ 2) + 2).
  { rewrite Z.quot_div_nonneg by lia.
    pose proof (Z.div_mod max 2 ltac:(lia)).
    pose proof (Z.mod_pos_bound max 2 ltac:(lia)). lia. }
  unfold max_int in *. unwrap.
  destruct (Z.ltb_spec (selected - max ÷ 2) 0) as [Hlo | Hlo]; [unwrap; lia|].
  destruct (Z.ltb_spec total (selected - max ÷ 2 + max)) as [Hhi | Hhi]; [unwrap; lia | lia].
Qed.

(** [findWindow_shows_selection] near the end of a list of 100 lines. *)
Lemma findWindow_shows_selection_witness :
  let '(low, high) := findWindow 100 98 10 in low ≤ 98 < high.
Proof.
  apply (findWindow_shows_selection 100 98 10); unfold max_int; try lia.
  intros _. by vm_compute.
Defined.

(** newline appends one line that holds [indent] blanks, and leaves the
    column after them. *)
Theorem newline_adds_indent_line (b : buffer) :
  0 ≤ width b → indent b ≤ max_int →
  newline b =
    Ok (set_col (Z.max 0 (indent b))
          (set_cells (Some (elems (cells b) ++ [replicate (Z.to_nat (indent b)) blank])) b)).
Proof. apply newline_startNewLine. Qed.

(** [newline_adds_indent_line] with an indent of 2. *)
Lemma newline_adds_indent_line_witness :
  newline (mkBuffer 5 3 2 false (Some [[blank; blank; blank]]) (pos.mk 0 0)) =
  Ok (mkBuffer 5 2 2 false (Some [[blank; blank; blank]; [blank; blank]]) (pos.mk 0 0)).
Proof.
  apply (newline_adds_indent_line (mkBuffer 5 3 2 false (Some [[blank; blank; blank]]) (pos.mk 0 0)));
    by vm_compute.
Defined.

(** extend on a receiver that is not nil: the lines of the other buffer, if
    any, come after its own, and its dot stays. *)
Lemma extend_elems (b : buffer) (p : option buffer) :
  ∃ b', extend (Some b) p = Ok (Some b') ∧
        elems (cells b') = elems (cells b) ++ elems (p ≫= cells) ∧
        dot b' = dot b.
Proof.
  unfold extend. destruct p as [b2|]; simpl.
  - destruct (cells b2) as [ls2|]; simpl.
    + eexists. split_and!; [done| |done]. simpl.
      destruct (cells b), ls2; done.
    + exists b. by rewrite app_nil_r.
  - exists b. by rewrite app_nil_r.
Qed.

(** When the terminal is high enough for the input line, the mode line and
    the tips, and there is neither completion nor navigation, the frame is
    the three buffers one under the other, with the dot of the input line. *)
Theorem frame_stacks_buffers {env : Env} (width height : Z) (bufLine : buffer)
    (bufMode bufTips : option buffer) :
  len (elems (cells bufLine)) + nlines bufMode + nlines bufTips ≤ max_int →
  len (elems (cells bufLine)) + nlines bufMode + nlines bufTips ≤ height →
  ∃ buf, frame width height bufLine bufMode bufTips None None = Ok (Some buf, None) ∧
         elems (cells buf) =
           elems (cells bufLine) ++ elems (bufMode ≫= cells) ++ elems (bufTips ≫= cells) ∧
         dot buf = dot bufLine.
Proof.
  intros Hsum Hh. unfold frame, fitHeight.
  rewrite !lines_sum by (simpl; lia). simpl foldr.
  destruct (Z.leb_spec (len (elems (cells bufLine)) + (nlines bufMode + (nlines bufTips + 0)))
              height); [|lia].
  simpl. unfold listing. rewrite andb_false_r. simpl.
  destruct (extend_elems bufLine bufMode) as (b1 & -> & Hc1 & Hd1). simpl.
  destruct (extend_elems b1 bufTips) as (b2 & -> & Hc2 & Hd2). simpl.
  exists b2. split_and!; [done| |congruence].
  rewrite Hc2, Hc1. by rewrite <- app_assoc.
Qed.

(** [frame_stacks_buffers] for an input line and a mode line in a terminal
    24 lines high. *)
Lemma frame_stacks_buffers_witness :
  let bufLine := mkBuffer 9 1 0 true (Some [[cell.mk 97 1 ""]]) (pos.mk 0 1) in
  let bufMode := mkBuffer 9 1 0 false (Some [[cell.mk 98 1 ""]]) (pos.mk 0 0) in
  ∃ buf, frame (env:=asciiEnv) 9 24 bufLine (Some bufMode) None None None = Ok (Some buf, None) ∧
         elems (cells buf) = [[cell.mk 97 1 ""]] ++ [[cell.mk 98 1 ""]] ++ [] ∧
         dot buf = pos.mk 0 1.
Proof.
  intros bufLine bufMode.
  apply (frame_stacks_buffers (env:=asciiEnv) 9 24 bufLine (Some bufMode) None); by vm_compute.
Defined.

(** ** The dot of a buffer that has been written to *)

Lemma grows_refl b : grows b b.
Proof. by split. Qed.

Lemma grows_trans b1 b2 b3 : grows b1 b2 → grows b2 b3 → grows b1 b3.
Proof. intros [H1 H2] [H3 H4]. split; [lia | congruence]. Qed.

Lemma appendCell_grows c b b' : appendCell c b = Ok b' → grows b b'.
Proof.
  unfold appendCell. destruct (elems (cells b) !! _) as [l|]; [|done].
  intros [= <-]. split; [|done]. simpl. unfold len. rewrite length_insert. lia.
Qed.

Lemma appendLine_grows b b' : appendLine b = Ok b' → grows b b'.
Proof.
  unfold appendLine. destruct (width b <? 0); [done|].
  intros [= <-]. split; [|done]. simpl.
  destruct (cells b); simpl; unfold len; rewrite ?length_app; simpl; lia.
Qed.

Lemma forM_grows body n : ∀ i b b',
  (∀ i b b', body i b = Ok b' → grows b b') →
  forM i n body b = Ok b' → grows b b'.
Proof.
  induction n as [|n IH]; intros i b b' Hbody; simpl.
  - intros [= <-]. apply grows_refl.
  - destruct (body i b) as [b1|] eqn:E; [|done]. simpl. intros Hrest.
    eapply grows_trans; [by eapply Hbody | by eapply IH].
Qed.

Lemma newline_grows b b' : newline b = Ok b' → grows b b'.
Proof.
  unfold newline. destruct (appendLine b) as [b1|] eqn:E; [|done]. simpl.
  apply appendLine_grows in E.
  destruct (0 <? indent b1).
  - intros H. eapply grows_trans; [done|].
    eapply forM_grows; [|done]. intros ? ? ?. apply appendCell_grows.
  - by intros [= <-].
Qed.

Section Dot.
Context {env : Env}.

Lemma write_grows r attr b b' : write r attr b = Ok b' → grows b b'.
Proof.
  unfold write. destruct (r =? 10); [apply newline_grows|].
  destruct (IsPrint r); simpl; [|intros [= <-]; apply grows_refl].
  destruct (width b <? col b ⊕ wcwidth r).
  - destruct (newline b) as [b1|] eqn:E1; [|done]. simpl. intros E2.
    eapply grows_trans; [by eapply newline_grows | by eapply appendCell_grows].
  - destruct (appendCell _ b) as [b1|] eqn:E1; [|done]. simpl.
    apply appendCell_grows in E1.
    destruct ((col b1 =? width b1) && newlineWhenFull b1).
    + intros E2. eapply grows_trans; [done | by eapply newline_grows].
    + by intros [= <-].
Qed.

Lemma writes_grows s attr : ∀ b b', writes s attr b = Ok b' → grows b b'.
Proof.
  induction s as [|r s IH]; intros b b'; simpl.
  - intros [= <-]. apply grows_refl.
  - destruct (write r attr b) as [b1|] eqn:E; [|done]. simpl. intros Hrest.
    eapply grows_trans; [by eapply write_grows | by eapply IH].
Qed.

(** One operation: the lines do not get fewer, and a dot that is on a line
    stays on a line, as long as the line count is an int. *)
Lemma step_dot o b b' :
  step o b = Ok b' →
  len (elems (cells b)) ≤ len (elems (cells b')) ∧
  (1 ≤ len (elems (cells b)) → len (elems (cells b')) ≤ max_int → dotOnLine b → dotOnLine b').
Proof.
  assert (Hg : grows b b' →
    len (elems (cells b)) ≤ len (elems (cells b')) ∧
    (1 ≤ len (elems (cells b)) → len (elems (cells b')) ≤ max_int →
     dotOnLine b → dotOnLine b')).
  { intros [Hl Hd]. split; [done|]. unfold dotOnLine. rewrite Hd. lia. }
  destruct o as [r attr | s attr | n attr | | n | f |]; simpl; intros Hs.
  - by eapply Hg, write_grows.
  - by eapply Hg, writes_grows.
  - unfold writePadding in Hs. destruct (n <? 0); [done|]. by eapply Hg, writes_grows.
  - by eapply Hg, newline_grows.
  - injection Hs as <-. apply Hg. by split.
  - injection Hs as <-. apply Hg. by split.
  - injection Hs as <-. simpl. split; [done|]. intros H1 Hmax _.
    unfold dotOnLine. simpl. unfold max_int in *. unwrap. lia.
Qed.

Lemma run_dot ops : ∀ b b',
  run ops b = Ok b' →
  len (elems (cells b)) ≤ len (elems (cells b')) ∧
  (1 ≤ len (elems (cells b)) → len (elems (cells b')) ≤ max_int → dotOnLine b → dotOnLine b').
Proof.
  induction ops as [|o ops IH]; intros b b'; simpl.
  - intros [= <-]. done.
  - destruct (step o b) as [b1|] eqn:E; [|done]. simpl. intros Hrest.
    destruct (step_dot _ _ _ E) as [Hl1 Hd1]. destruct (IH _ _ Hrest) as [Hl2 Hd2].
    split; [lia|]. intros H1 Hmax Hdot. apply Hd2; [lia | done |]. apply Hd1; [done | lia | done].
Qed.

(** Whatever refresh writes to a buffer made by newBuffer, and wherever it
    marks the dot, the buffer keeps at least one line and the dot is on one
    of its lines. *)
Theorem dot_stays_on_a_line (w : Z) (ops : list op) (b0 b : buffer) :
  newBuffer w = Ok b0 →
  run ops b0 = Ok b →
  len (elems (cells b)) ≤ max_int →
  1 ≤ len (elems (cells b)) ∧ dotOnLine b.
Proof.
  unfold newBuffer. destruct (w <? 0); [done|]. intros [= <-] Hrun Hmax.
  destruct (run_dot _ _ _ Hrun) as [Hl Hd]. simpl in Hl. split; [unfold len in *; simpl in *; lia|].
  apply Hd; [by vm_compute | done | by vm_compute].
Qed.

End Dot.

(** [dot_stays_on_a_line] for a prompt, a mark of the dot and a line feed. *)
Lemma dot_stays_on_a_line_witness :
  let b0 := mkBuffer 3 0 0 false (Some [[]]) (pos.mk 0 0) in
  let b := mkBuffer 3 0 0 false
             (Some [[cell.mk 97 1 ""; cell.mk 98 1 ""; cell.mk 99 1 ""]; [cell.mk 100 1 ""]; []])
             (pos.mk 1 1) in
  1 ≤ len (elems (cells b)) ∧ dotOnLine b.
Proof.
  intros b0 b.
  apply (dot_stays_on_a_line (env:=asciiEnv) 3
           [OpWrites [97; 98; 99; 100] ""; OpMarkDot; OpNewline] b0 b); by vm_compute.
Defined.

(** ** Writing never fails, loses nothing and alters nothing *)

Lemma appendCell_writable c b :
  writable b →
  ∃ b', appendCell c b = Ok b' ∧ writable b' ∧ indent b' = indent b ∧
        concat (elems (cells b')) = concat (elems (cells b)) ++ [c].
Proof.
  intros [Hne Hw]. destruct (cells_snoc b Hne) as (ls & l & Hc).
  rewrite (appendCell_last _ _ _ _ Hc). eexists. split; [done|].
  rewrite Hc. simpl. split_and!; [split; simpl; [by destruct ls | done] | done |].
  rewrite !concat_app. simpl. rewrite !app_nil_r. by rewrite app_assoc.
Qed.

Lemma newline_writable b :
  writable b → indent b ≤ max_int →
  ∃ b', newline b = Ok b' ∧ writable b' ∧ indent b' = indent b ∧
        concat (elems (cells b')) =
          concat (elems (cells b)) ++ replicate (Z.to_nat (indent b)) blank.
Proof.
  intros [Hne Hw] Hi. rewrite newline_startNewLine by done. eexists. split; [done|].
  unfold startNewLine. simpl.
  split_and!; [split; simpl; [by destruct (elems (cells b)) | done] | done |].
  rewrite concat_app. simpl. by rewrite app_nil_r.
Qed.

Section Writing.
Context {env : Env}.

Lemma write_writable r attr b :
  writable b → indent b ≤ max_int →
  ∃ b', write r attr b = Ok b' ∧ writable b' ∧ indent b' = indent b ∧
        (indent b ≤ 0 →
         concat (elems (cells b')) = concat (elems (cells b)) ++ cellsOf [r] attr).
Proof.
  intros Hb Hi. unfold write, cellsOf. rewrite filter_cons, filter_nil.
  destruct (Z.eqb_spec r 10) as [-> | Hr].
  { destruct (newline_writable b Hb Hi) as (b' & -> & Hb' & Hi' & Hc).
    eexists. split_and!; try done. intros Hz. rewrite Hc.
    replace (Z.to_nat (indent b)) with 0%nat by lia.
    rewrite decide_False by (intros []; done). done. }
  destruct (IsPrint r) eqn:Hp; simpl.
  2:{ eexists. split_and!; try done. intros _.
      rewrite decide_False by (intros []; done). simpl. by rewrite app_nil_r. }
  rewrite decide_True by done. simpl.
  destruct (width b <? col b ⊕ wcwidth r).
  - destruct (newline_writable b Hb Hi) as (b1 & -> & Hb1 & Hi1 & Hc1). simpl.
    destruct (appendCell_writable (cell.mk r (to_byte (wcwidth r)) attr) b1 Hb1)
      as (b2 & -> & Hb2 & Hi2 & Hc2).
    eexists. split_and!; [done | done | congruence |]. intros Hz. rewrite Hc2, Hc1.
    replace (Z.to_nat (indent b)) with 0%nat by lia. simpl. by rewrite app_nil_r.
  - destruct (appendCell_writable (cell.mk r (to_byte (wcwidth r)) attr) b Hb)
      as (b1 & -> & Hb1 & Hi1 & Hc1). simpl.
    destruct ((col b1 =? width b1) && newlineWhenFull b1).
    + destruct (newline_writable b1 Hb1 ltac:(lia)) as (b2 & -> & Hb2 & Hi2 & Hc2).
      eexists. split_and!; [done | done | congruence |]. intros Hz. rewrite Hc2, Hc1.
      replace (Z.to_nat (indent b1)) with 0%nat by lia. simpl. by rewrite app_nil_r.
    + eexists. split_and!; done.
Qed.

Lemma cellsOf_cons r s attr : cellsOf (r :: s) attr = cellsOf [r] attr ++ cellsOf s attr.
Proof.
  unfold cellsOf. rewrite !filter_cons, filter_nil.
  destruct (decide (r ≠ 10 ∧ IsPrint r = true)); done.
Qed.

Lemma writes_writable s attr : ∀ b,
  writable b → indent b ≤ max_int →
  ∃ b', writes s attr b = Ok b' ∧ writable b' ∧ indent b' = indent b ∧
        (indent b ≤ 0 →
         concat (elems (cells b')) = concat (elems (cells b)) ++ cellsOf s attr).
Proof.
  induction s as [|r s IH]; intros b Hb Hi; simpl.
  - eexists. split_and!; try done. intros _. unfold cellsOf. by rewrite app_nil_r.
  - destruct (write_writable r attr b Hb Hi) as (b1 & -> & Hb1 & Hi1 & Hc1). simpl.
    destruct (IH b1 Hb1 ltac:(lia)) as (b2 & -> & Hb2 & Hi2 & Hc2).
    eexists. split_and!; [done | done | congruence |]. intros Hz.
    rewrite (Hc2 ltac:(lia)), (Hc1 Hz), (cellsOf_cons r s). by rewrite app_assoc.
Qed.

(** The methods that write to a buffer never panic: on a buffer made by
    newBuffer, every sequence of write, writes, writePadding with a count
    that is not negative, newline, marks of the dot and assignments of an int
    to indent and of a flag to newlineWhenFull runs to its end, whatever the
    width, the indent and the runes. *)
Theorem writing_never_panics (w : Z) (ops : list op) :
  0 ≤ w →
  Forall paddingFits ops →
  Forall (λ o, match o with OpSetIndent n => n ≤ max_int | _ => True end) ops →
  ∃ b0 b, newBuffer w = Ok b0 ∧ run ops b0 = Ok b.
Proof.
  intros Hw Hpad Hind. unfold newBuffer.
  destruct (Z.ltb_spec w 0) as [?|_]; [lia|]. eexists _.
  assert (Hgen : ∀ b, writable b → indent b ≤ max_int →
            ∃ b', run ops b = Ok b').
  { induction ops as [|o ops IH]; intros b Hb Hi; simpl; [eauto|].
    inversion Hpad as [|? ? Ho Hpad']; subst. inversion Hind as [|? ? Hn Hind']; subst.
    assert (∃ b1, step o b = Ok b1 ∧ writable b1 ∧ indent b1 ≤ max_int) as (b1 & -> & Hb1 & Hi1).
    { destruct o as [r attr | s attr | n attr | | n | f |]; simpl in *.
      - destruct (write_writable r attr b Hb Hi) as (b1 & -> & ? & ? & _).
        eexists. split_and!; [done | done | lia].
      - destruct (writes_writable s attr b Hb Hi) as (b1 & -> & ? & ? & _).
        eexists. split_and!; [done | done | lia].
      - unfold writePadding. destruct (Z.ltb_spec n 0); [lia|].
        destruct (writes_writable (replicate (Z.to_nat n) 32) attr b Hb Hi)
          as (b1 & -> & ? & ? & _).
        eexists. split_and!; [done | done | lia].
      - destruct (newline_writable b Hb Hi) as (b1 & -> & ? & ? & _).
        eexists. split_and!; [done | done | lia].
      - eexists. split_and!; [done | done | done].
      - eexists. split_and!; [done | done | done].
      - eexists. split_and!; [done | done | done]. }
    simpl. by apply IH. }
  destruct (Hgen (mkBuffer w 0 0 false (Some [[]]) (pos.mk 0 0))) as (b & Hb).
  - split; simpl; [done | lia].
  - by vm_compute.
  - eauto.
Qed.

(** In a buffer without indent, writes stores the runes of the string that
    print, each as one cell with the style given, after the cells that were
    there, in the order of the string: wrapping moves cells to new lines, but
    it loses none, adds none and swaps none; line feeds and runes that do not
    print leave no cell. *)
Theorem writes_keeps_the_text (s : runes) (attr : string) (b : buffer) :
  writable b →
  indent b ≤ 0 →
  ∃ b', writes s attr b = Ok b' ∧
        concat (elems (cells b')) = concat (elems (cells b)) ++ cellsOf s attr.
Proof.
  intros Hb Hi.
  destruct (writes_writable s attr b Hb ltac:(unfold max_int; lia)) as (b' & Hw & _ & _ & Hc).
  eauto.
Qed.

(** Runes that do not print, the line feed apart, are dropped without a
    trace: a string made of them leaves any buffer exactly as it was, a
    buffer that nothing could be written to included. *)
Theorem writes_drops_what_does_not_print (s : runes) (attr : string) (b : buffer) :
  Forall (λ r, r ≠ 10 ∧ IsPrint r = false) s →
  writes s attr b = Ok b.
Proof.
  induction 1 as [|r s [Hr Hp] _ IH]; simpl; [done|].
  unfold write. rewrite (proj2 (Z.eqb_neq r 10) Hr), Hp. simpl. done.
Qed.

End Writing.

(** [writing_never_panics] in a buffer without columns and with an indent
    beyond its width. *)
Lemma writing_never_panics_witness :
  ∃ b0 b, newBuffer 0 = Ok b0 ∧
          run (env:=asciiEnv)
            [OpSetIndent 3; OpWrites [97; 10; 7; 98] "1"; OpWritePadding 2 ""; OpMarkDot] b0
          = Ok b.
Proof.
  apply (writing_never_panics (env:=asciiEnv) 0); [done | |];
    repeat constructor; by vm_compute.
Defined.

(** [writes_keeps_the_text]: five runes in a buffer 2 columns wide. *)
Lemma writes_keeps_the_text_witness :
  let b := mkBuffer 2 0 0 true (Some [[]]) (pos.mk 0 0) in
  ∃ b', writes (env:=asciiEnv) [97; 98; 7; 99; 10; 100] "1" b = Ok b' ∧
        concat (elems (cells b')) =
          concat (elems (cells b)) ++ cellsOf (env:=asciiEnv) [97; 98; 7; 99; 10; 100] "1".
Proof.
  intros b. apply (writes_keeps_the_text (env:=asciiEnv)); [split; by vm_compute | by vm_compute].
Defined.

(** [writes_drops_what_does_not_print]: a bell and an escape. *)
Lemma writes_drops_what_does_not_print_witness :
  writes (env:=asciiEnv) [7; 27] "1" (mkBuffer 2 1 0 true None (pos.mk 0 0))
  = Ok (mkBuffer 2 1 0 true None (pos.mk 0 0)).
Proof.
  apply (writes_drops_what_does_not_print (env:=asciiEnv)).
  repeat constructor; by vm_compute.
Defined.

(** ** Lines are only ever added to *)

Lemma linesExtended_refl ls : linesExtended ls ls.
Proof. intros i l Hl. eauto. Qed.

Lemma linesExtended_trans ls1 ls2 ls3 :
  linesExtended ls1 ls2 → linesExtended ls2 ls3 → linesExtended ls1 ls3.
Proof.
  intros H12 H23 i l Hl. destruct (H12 i l Hl) as (l2 & Hl2 & Hp2).
  destruct (H23 i l2 Hl2) as (l3 & Hl3 & Hp3). exists l3. split; [done|]. by etrans.
Qed.

Lemma appendCell_extends c b b' :
  appendCell c b = Ok b' → linesExtended (elems (cells b)) (elems (cells b')).
Proof.
  unfold appendCell. destruct (elems (cells b) !! _) as [l|] eqn:El; [|done].
  intros [= <-]. simpl. intros i l0 Hl0.
  destruct (decide (i = Nat.pred (length (elems (cells b))))) as [-> | Hne].
  - rewrite El in Hl0. injection Hl0 as <-. exists (l ++ [c]). split.
    + apply list_lookup_insert_eq. by eapply lookup_lt_Some.
    + by apply prefix_app_r.
  - exists l0. split; [|done]. by rewrite list_lookup_insert_ne.
Qed.

Lemma appendLine_extends b b' :
  appendLine b = Ok b' → linesExtended (elems (cells b)) (elems (cells b')).
Proof.
  unfold appendLine. destruct (width b <? 0); [done|]. intros [= <-]. simpl.
  intros i l Hl. exists l. split; [|done].
  destruct (cells b) as [ls|]; simpl in *; [by apply lookup_app_l_Some | done].
Qed.

Lemma forM_extends body n : ∀ i b b',
  (∀ i b b', body i b = Ok b' → linesExtended (elems (cells b)) (elems (cells b'))) →
  forM i n body b = Ok b' → linesExtended (elems (cells b)) (elems (cells b')).
Proof.
  induction n as [|n IH]; intros i b b' Hbody; simpl.
  - intros [= <-]. apply linesExtended_refl.
  - destruct (body i b) as [b1|] eqn:E; [|done]. simpl. intros Hrest.
    eapply linesExtended_trans; [by eapply Hbody | by eapply IH].
Qed.

Lemma newline_extends b b' :
  newline b = Ok b' → linesExtended (elems (cells b)) (elems (cells b')).
Proof.
  unfold newline. destruct (appendLine b) as [b1|] eqn:E; [|done]. simpl.
  apply appendLine_extends in E.
  destruct (0 <? indent b1).
  - intros H. eapply linesExtended_trans; [done|].
    eapply forM_extends; [|done]. intros ? ? ?. apply appendCell_extends.
  - by intros [= <-].
Qed.

Section AppendOnly.
Context {env : Env}.

Lemma write_extends r attr b b' :
  write r attr b = Ok b' → linesExtended (elems (cells b)) (elems (cells b')).
Proof.
  unfold write. destruct (r =? 10); [apply newline_extends|].
  destruct (IsPrint r); simpl; [|intros [= <-]; apply linesExtended_refl].
  destruct (width b <? col b ⊕ wcwidth r).
  - destruct (newline b) as [b1|] eqn:E1; [|done]. simpl. intros E2.
    eapply linesExtended_trans; [by eapply newline_extends | by eapply appendCell_extends].
  - destruct (appendCell _ b) as [b1|] eqn:E1; [|done]. simpl.
    apply appendCell_extends in E1.
    destruct ((col b1 =? width b1) && newlineWhenFull b1).
    + intros E2. eapply linesExtended_trans; [done | by eapply newline_extends].
    + by intros [= <-].
Qed.

Lemma writes_extends s attr : ∀ b b',
  writes s attr b = Ok b' → linesExtended (elems (cells b)) (elems (cells b')).
Proof.
  induction s as [|r s IH]; intros b b'; simpl.
  - intros [= <-]. apply linesExtended_refl.
  - destruct (write r attr b) as [b1|] eqn:E; [|done]. simpl. intros Hrest.
    eapply linesExtended_trans; [by eapply write_extends | by eapply IH].
Qed.

(** Whatever is written to a buffer, what it held stays: every line that
    was there is still at its place, with the cells it had at its start, in
    their order; cells are only added at the end of a line, and lines at the
    end of the buffer. *)
Theorem writing_is_append_only (ops : list op) (b b' : buffer) :
  run ops b = Ok b' →
  linesExtended (elems (cells b)) (elems (cells b')).
Proof.
  revert b. induction ops as [|o ops IH]; intros b; simpl.
  - intros [= <-]. apply linesExtended_refl.
  - destruct (step o b) as [b1|] eqn:E; [|done]. simpl. intros Hrest.
    eapply linesExtended_trans; [|by eapply IH].
    destruct o as [r attr | s attr | n attr | | n | f |]; simpl in E.
    + by eapply write_extends.
    + by eapply writes_extends.
    + unfold writePadding in E. destruct (n <? 0); [done|]. by eapply writes_extends.
    + by eapply newline_extends.
    + injection E as <-. apply linesExtended_refl.
    + injection E as <-. apply linesExtended_refl.
    + injection E as <-. apply linesExtended_refl.
Qed.

End AppendOnly.

(** [writing_is_append_only]: a line that wraps after it was begun. *)
Lemma writing_is_append_only_witness :
  linesExtended
    [[cell.mk 97 1 ""]]
    [[cell.mk 97 1 ""; cell.mk 98 1 ""; cell.mk 99 1 ""]; [cell.mk 100 1 ""]].
Proof.
  apply (writing_is_append_only (env:=asciiEnv) [OpWrites [98; 99; 100] ""]
           (mkBuffer 3 1 0 false (Some [[cell.mk 97 1 ""]]) (pos.mk 0 0))
           (mkBuffer 3 1 0 false
              (Some [[cell.mk 97 1 ""; cell.mk 98 1 ""; cell.mk 99 1 ""]; [cell.mk 100 1 ""]])
              (pos.mk 0 0))).
  by vm_compute.
Defined.

(** ** Cutting a buffer to a range of lines *)

(** trimToLines with bounds within the buffer keeps the lines from [low] up
    to, not including, [high], and moves the line of the dot up by [low];
    the column of the dot, the write column and the width stay. With a
    negative [low], or with [high] below [low], it panics. *)
Theorem trimToLines_range (low high : Z) (b : buffer) (ls : list (list cell)) :
  cells b = Some ls →
  is_int (pos.line (dot b) - low) →
  (0 ≤ low ≤ high ∧ high ≤ len ls →
   ∃ b', trimToLines low high b = Ok b' ∧
         cells b' = Some (take (Z.to_nat (high - low)) (drop (Z.to_nat low) ls)) ∧
         len (elems (cells b')) = high - low ∧
         (∀ i, 0 ≤ i < high - low →
               elems (cells b') !! Z.to_nat i = ls !! Z.to_nat (low + i)) ∧
         dot b' = pos.mk (pos.line (dot b) - low) (pos.col (dot b)) ∧
         col b' = col b ∧ width b' = width b) ∧
  (low < 0 ∨ high < low → ∃ p, trimToLines low high b = Panic p).
Proof.
  intros Hc Hdot. unfold trimToLines, slice_range. rewrite Hc. simpl elems.
  pose proof (len_nonneg ls) as Hlen. split.
  - intros [[Hl0 Hlh] Hh].
    rewrite (proj2 (Z.ltb_ge (len ls) low)) by lia.
    rewrite (proj2 (Z.ltb_ge high 0)) by lia. simpl andb.
    rewrite (proj2 (Z.ltb_ge low 0)), (proj2 (Z.ltb_ge high low)),
      (proj2 (Z.ltb_ge (len ls) high)) by lia. simpl.
    eexists. split; [done|]. simpl.
    assert (Hlt : length (take (Z.to_nat (high - low)) (drop (Z.to_nat low) ls))
                  = Z.to_nat (high - low)).
    { rewrite length_take, length_drop. unfold len in *. lia. }
    split_and!; try done.
    + unfold len. rewrite Hlt. lia.
    + intros i Hi. rewrite lookup_take_lt by lia. rewrite lookup_drop. f_equal. lia.
    + f_equal. unwrap. done.
  - intros Hbad.
    destruct (len ls <? low); [eauto|].
    destruct ((high <? 0) && (high <? len ls)); [eauto|].
    assert ((low <? 0) || (high <? low) = true) as ->; [|simpl; eauto].
    destruct Hbad.
    + rewrite (proj2 (Z.ltb_lt low 0)) by done. done.
    + rewrite (proj2 (Z.ltb_lt high low)) by done. by rewrite orb_true_r.
Qed.

(** [trimToLines_range]: the two middle lines of four. *)
Lemma trimToLines_range_witness :
  let ls := [[cell.mk 97 1 ""]; [cell.mk 98 1 ""]; [cell.mk 99 1 ""]; [cell.mk 100 1 ""]] in
  let b := mkBuffer 1 1 0 true (Some ls) (pos.mk 2 0) in
  (∃ b', trimToLines 1 3 b = Ok b' ∧
         cells b' = Some (take (Z.to_nat (3 - 1)) (drop (Z.to_nat 1) ls)) ∧
         len (elems (cells b')) = 3 - 1 ∧
         (∀ i, 0 ≤ i < 3 - 1 →
               elems (cells b') !! Z.to_nat i = ls !! Z.to_nat (1 + i)) ∧
         dot b' = pos.mk (2 - 1) 0 ∧
         col b' = col b ∧ width b' = width b) ∧
  ∃ p, trimToLines (-1) 3 b = Panic p.
Proof.
  intros ls b. split.
  - apply (trimToLines_range 1 3 b ls eq_refl); by vm_compute.
  - apply (trimToLines_range (-1) 3 b ls eq_refl); [by vm_compute | left; lia].
Defined.

(** ** The height of the frame *)

Lemma nlines_elems p : nlines p = len (elems (p ≫= cells)).
Proof. by destruct p. Qed.

Lemma len_app {A} (l1 l2 : list A) : len (l1 ++ l2) = len l1 + len l2.
Proof. unfold len. rewrite length_app. lia. Qed.

Lemma wrap_is_int x : is_int (wrap x).
Proof.
  unfold is_int, min_int, max_int, wrap.
  pose proof (Z.mod_pos_bound (x + 2 ^ 63) (2 ^ 64)). lia.
Qed.

(** What trimToLines returns has at most [high - low] lines. *)
Lemma trimToLines_len low high b b' :
  trimToLines low high b = Ok b' →
  0 ≤ low ≤ high ∧ high ≤ len (elems (cells b)) ∧ len (elems (cells b')) ≤ high - low.
Proof.
  unfold trimToLines, slice_range.
  destruct (len (elems (cells b)) <? low); [done|].
  destruct ((high <? 0) && (high <? len (elems (cells b)))); [done|].
  destruct (Z.ltb_spec low 0); [done|].
  destruct (Z.ltb_spec high low); [done|].
  destruct (Z.ltb_spec (len (elems (cells b))) high); [done|].
  simpl. intros [= <-]. simpl. split_and!; try lia.
  destruct (cells b); simpl; unfold len; rewrite ?length_take; simpl; lia.
Qed.

Section Height.
Context {env : Env}.

(** Without completion and navigation, a frame that refresh composes is
    never higher than the terminal: the mode line, then the tips are left
    out, and then the input line is cut, until what is left fits. *)
Theorem frame_fits_the_height (width height : Z) (bufLine : buffer)
    (bufMode bufTips : option buffer) (buf : buffer) (completionLines : option Z) :
  len (elems (cells bufLine)) + nlines bufMode + nlines bufTips ≤ max_int →
  frame width height bufLine bufMode bufTips None None = Ok (Some buf, completionLines) →
  len (elems (cells buf)) ≤ height.
Proof.
  intros Hsum. unfold frame, fitHeight.
  pose proof (nlines_nonneg bufMode) as Hm. pose proof (nlines_nonneg bufTips) as Ht.
  pose proof (len_nonneg (elems (cells bufLine))) as Hl.
  rewrite !lines_sum by (simpl; lia). simpl foldr.
  destruct (Z.leb_spec (len (elems (cells bufLine)) + (nlines bufMode + (nlines bufTips + 0)))
              height) as [H1|H1].
  { simpl. unfold listing; rewrite ?andb_false_r; simpl.
    destruct (extend_elems bufLine bufMode) as (b1 & -> & Hc1 & _). simpl.
    destruct (extend_elems b1 bufTips) as (b2 & -> & Hc2 & _). simpl.
    intros [= <- _]. rewrite Hc2, Hc1, !len_app, <- !nlines_elems. lia. }
  destruct (Z.leb_spec (len (elems (cells bufLine)) + (nlines bufTips + 0)) height) as [H2|H2].
  { simpl. unfold listing; rewrite ?andb_false_r; simpl.
    destruct (extend_elems bufLine bufTips) as (b2 & -> & Hc2 & _). simpl.
    intros [= <- _]. rewrite Hc2, !len_app, <- !nlines_elems. lia. }
  destruct (Z.leb_spec (len (elems (cells bufLine)) + 0) height) as [H3|H3].
  { simpl. unfold listing; rewrite ?andb_false_r; simpl. intros [= <- _]. lia. }
  destruct (Z.leb_spec 1 height) as [H4|H4].
  2:{ simpl. unfold listing; rewrite ?andb_false_r; simpl. done. }
  destruct (trimToLines _ _ bufLine) as [b4|] eqn:E; [|done].
  simpl. unfold listing; rewrite ?andb_false_r; simpl. intros [= <- _].
  apply trimToLines_len in E as (Hlow & Hhigh & Hlen).
  unfold int_sub in Hlow, Hlen at 1.
  set (H := pos.line (dot bufLine) ⊕ 1) in *.
  rewrite wrap_small in Hlen, Hlow by (unfold is_int, min_int, max_int in *; lia).
  lia.
Qed.

(** When the terminal is high enough for the input line and the tips, but
    not for the mode line as well, the mode line is the one left out: the
    frame is the input line with the tips under it. *)
Theorem frame_keeps_tips_before_mode (width height : Z) (bufLine : buffer)
    (bufMode bufTips : option buffer) :
  len (elems (cells bufLine)) + nlines bufMode + nlines bufTips ≤ max_int →
  len (elems (cells bufLine)) + nlines bufTips ≤ height →
  height < len (elems (cells bufLine)) + nlines bufMode + nlines bufTips →
  ∃ buf, frame width height bufLine bufMode bufTips None None = Ok (Some buf, None) ∧
         elems (cells buf) = elems (cells bufLine) ++ elems (bufTips ≫= cells) ∧
         dot buf = dot bufLine.
Proof.
  intros Hsum Hfit Hnot. unfold frame, fitHeight.
  pose proof (nlines_nonneg bufMode) as Hm. pose proof (nlines_nonneg bufTips) as Ht.
  rewrite !lines_sum by (simpl; lia). simpl foldr.
  rewrite (proj2 (Z.leb_gt _ height)) by lia.
  rewrite (proj2 (Z.leb_le _ height)) by lia.
  simpl. unfold listing. rewrite ?andb_false_r. simpl.
  destruct (extend_elems bufLine bufTips) as (b2 & -> & Hc2 & Hd2). simpl. eauto.
Qed.

End Height.

(** [frame_fits_the_height]: three input lines, the dot on the last, in a
    terminal 2 lines high. *)
Lemma frame_fits_the_height_witness :
  len [[cell.mk 98 1 ""]; [cell.mk 99 1 ""]] ≤ 2.
Proof.
  apply (frame_fits_the_height (env:=asciiEnv) 1 2
           (mkBuffer 1 1 0 true (Some [[cell.mk 97 1 ""]; [cell.mk 98 1 ""]; [cell.mk 99 1 ""]])
              (pos.mk 2 0))
           (Some (mkBuffer 1 1 0 false (Some [[cell.mk 100 1 ""]]) (pos.mk 0 0))) None
           (mkBuffer 1 1 0 true (Some [[cell.mk 98 1 ""]; [cell.mk 99 1 ""]]) (pos.mk 1 0))
           None); by vm_compute.
Defined.

(** [frame_keeps_tips_before_mode]: one line each, in a terminal 2 lines
    high. *)
Lemma frame_keeps_tips_before_mode_witness :
  let bufLine := mkBuffer 9 1 0 true (Some [[cell.mk 97 1 ""]]) (pos.mk 0 1) in
  let bufMode := mkBuffer 9 1 0 false (Some [[cell.mk 98 1 ""]]) (pos.mk 0 0) in
  let bufTips := mkBuffer 9 1 0 false (Some [[cell.mk 99 1 ""]]) (pos.mk 0 0) in
  ∃ buf, frame (env:=asciiEnv) 9 2 bufLine (Some bufMode) (Some bufTips) None None
           = Ok (Some buf, None) ∧
         elems (cells buf) = [[cell.mk 97 1 ""]] ++ [[cell.mk 99 1 ""]] ∧
         dot buf = pos.mk 0 1.
Proof.
  intros bufLine bufMode bufTips.
  apply (frame_keeps_tips_before_mode (env:=asciiEnv) 9 2 bufLine (Some bufMode) (Some bufTips));
    by vm_compute.
Defined.

(** ** The bytes that move the cursor and set the style *)

Lemma append_assoc (s1 s2 s3 : string) : (s1 +:+ s2) +:+ s3 = s1 +:+ s2 +:+ s3.
Proof.
  induction s1 as [|c s1 IH]; [done|].
  change ((String c s1 +:+ s2) +:+ s3) with (String c ((s1 +:+ s2) +:+ s3)).
  change (String c s1 +:+ s2 +:+ s3) with (String c (s1 +:+ s2 +:+ s3)).
  by rewrite IH.
Qed.

Lemma append_nil_r (s : string) : s +:+ "" = s.
Proof.
  induction s as [|c s IH]; [done|].
  change (String c s +:+ "") with (String c (s +:+ "")). by rewrite IH.
Qed.

Lemma termFeed_app (s1 s2 : string) st :
  termFeed (s1 +:+ s2) st = (st' ← termFeed s1 st; termFeed s2 st').
Proof.
  revert st. induction s1 as [|c s1 IH]; intros st; simpl; [done|].
  destruct (termStep c st) as [st'|]; simpl; [apply IH | done].
Qed.

Lemma termFeed_params (s : string) : ∀ params p,
  noFinal s → termFeed s (Csi params, p) = Some (Csi (params +:+ s), p).
Proof.
  induction s as [|c s IH]; intros params p Hs; simpl.
  - by rewrite append_nil_r.
  - destruct Hs as [Hc Hs]. rewrite Hc. simpl. rewrite IH by done.
    by rewrite append_assoc.
Qed.

Lemma noFinal_uint (d : Decimal.uint) : noFinal (NilEmpty.string_of_uint d).
Proof. induction d; simpl; auto. Qed.

Lemma noFinal_fmt_d (n : Z) : noFinal (fmt_d n).
Proof.
  unfold fmt_d, NilZero.string_of_int, NilZero.string_of_uint.
  destruct (Z.to_int n) as [d|d]; destruct d; simpl; auto using noFinal_uint.
Qed.

(** [%d] writes a number that reads back as itself. *)
Lemma paramValue_fmt_d (n : Z) : paramValue (fmt_d n) = Some n.
Proof.
  unfold paramValue, fmt_d. rewrite NilZero.isi.
  - simpl. by rewrite DecimalZ.of_to.
  - destruct n; simpl; try done. intros [= H]. by apply Unsigned.to_uint_nonnil in H.
  - destruct n; simpl; try done. intros [= H]. by apply Unsigned.to_uint_nonnil in H.
Qed.

(** One cursor sequence, read from its escape to its letter. *)
Lemma termFeed_sequence (n : Z) (c : ascii) (rest : string) (p : pos) :
  termFeed (ESC +:+ "[" +:+ fmt_d n +:+ String c rest) (Ground, p) =
  (st ← termStep c (Csi (fmt_d n), p); termFeed rest st).
Proof.
  change (termFeed (ESC +:+ "[" +:+ fmt_d n +:+ String c rest) (Ground, p))
    with (termFeed (fmt_d n +:+ String c rest) (Csi "", p)).
  rewrite termFeed_app, (termFeed_params (fmt_d n) "" p (noFinal_fmt_d n)).
  done.
Qed.

Lemma termStep_up (n : Z) (p : pos) :
  termStep "A" (Csi (fmt_d n), p) = Some (Ground, pos.mk (pos.line p - n) (pos.col p)).
Proof. unfold termStep. change (isFinal "A") with true. cbv iota. by rewrite paramValue_fmt_d. Qed.

Lemma termStep_down (n : Z) (p : pos) :
  termStep "B" (Csi (fmt_d n), p) = Some (Ground, pos.mk (pos.line p + n) (pos.col p)).
Proof. unfold termStep. change (isFinal "B") with true. cbv iota. by rewrite paramValue_fmt_d. Qed.

Lemma termStep_column (n : Z) (p : pos) :
  termStep "G" (Csi (fmt_d n), p) = Some (Ground, pos.mk (pos.line p) (n - 1)).
Proof. unfold termStep. change (isFinal "G") with true. cbv iota. by rewrite paramValue_fmt_d. Qed.

(** A sequence at the head of the bytes moves the cursor, and the rest is
    read from there. *)
Lemma readCursor_sequence (n : Z) (c : ascii) (rest : string) (p q : pos) :
  termStep c (Csi (fmt_d n), p) = Some (Ground, q) →
  readCursor (ESC +:+ "[" +:+ fmt_d n +:+ String c rest) p = readCursor rest q.
Proof. intros H. unfold readCursor. by rewrite termFeed_sequence, H. Qed.

(** deltaPos does what it is for: a terminal whose cursor is on the line of
    [from] and reads the bytes that deltaPos(from, to) returns has its cursor
    at [to], line and column, whatever its column was before. The bytes are
    one move up or down by the distance of the lines, none for the same
    line, and the move to the column of [to], counted from 1. *)
Theorem deltaPos_moves_the_cursor (from to : pos) (column : Z) :
  is_int (pos.line to - pos.line from) →
  is_int (pos.line from - pos.line to) →
  is_int (pos.col to + 1) →
  readCursor (deltaPos from to) (pos.mk (pos.line from) column) = Some to.
Proof.
  intros Hdown Hup Hcol. destruct from as [fl fc], to as [tl tc]. simpl in *.
  unfold deltaPos. simpl pos.line. simpl pos.col.
  unfold int_add, int_sub. rewrite !wrap_small by done.
  destruct (Z.ltb_spec fl tl) as [Hlt | Hge]; [|destruct (Z.ltb_spec tl fl) as [Hgt | Hle]].
  - rewrite !append_assoc. change ("B" +:+ ?r) with (String "B" r).
    rewrite (readCursor_sequence _ _ _ _ _ (termStep_down _ _)).
    rewrite (readCursor_sequence _ _ _ _ _ (termStep_column _ _)).
    simpl. do 2 f_equal; lia.
  - rewrite !append_assoc. change ("A" +:+ ?r) with (String "A" r).
    rewrite (readCursor_sequence _ _ _ _ _ (termStep_up _ _)).
    rewrite (readCursor_sequence _ _ _ _ _ (termStep_column _ _)).
    simpl. do 2 f_equal; lia.
  - change ("" +:+ ?r) with r.
    rewrite (readCursor_sequence _ _ _ _ _ (termStep_column _ _)).
    simpl. do 2 f_equal; lia.
Qed.

(** [deltaPos_moves_the_cursor]: from line 12 up to line 3, column 40. *)
Lemma deltaPos_moves_the_cursor_witness :
  readCursor (deltaPos (pos.mk 12 7) (pos.mk 3 40)) (pos.mk 12 0) = Some (pos.mk 3 40).
Proof.
  apply (deltaPos_moves_the_cursor (pos.mk 12 7) (pos.mk 3 40) 0); by vm_compute.
Defined.

(** ** The list value: reading, assigning, appending and printing *)

Section ListValue.
Import Eval.
Context {env : Eval.Env}.

Lemma intIndexWithin_position (idx : Value) (n i : Z) :
  Atoi (ToString idx) = inl i →
  is_int i → 0 ≤ n ≤ max_int →
  intIndexWithin idx n =
    if (position i n <? 0) || (n <=? position i n) then throw ErrIndexOutOfRange
    else Ok (position i n).
Proof.
  intros Hi Hint Hn. unfold intIndexWithin, intIndex, position. rewrite Hi. simpl.
  unfold is_int, min_int, max_int in *.
  destruct (Z.ltb_spec i 0); unwrap; done.
Qed.

Lemma IndexOne_position (l : List) (idx : Value) (σ : gmap positive (list Value))
    (vs : list Value) (i : Z) :
  σ !! inner l = Some vs →
  Atoi (ToString idx) = inl i →
  is_int i → len vs ≤ max_int →
  IndexOne l idx σ =
    match vs !! Z.to_nat (position i (len vs)) with
    | Some v => if position i (len vs) <? 0 then throw ErrIndexOutOfRange else Ok v
    | None => throw ErrIndexOutOfRange
    end.
Proof.
  intros Hσ Hi Hint Hn. pose proof (len_nonneg vs) as H0.
  unfold IndexOne. rewrite Hσ. simpl.
  rewrite (intIndexWithin_position idx (len vs) i) by done.
  destruct (Z.ltb_spec (position i (len vs)) 0) as [Hneg | Hpos]; simpl.
  { by destruct (vs !! _). }
  destruct (Z.leb_spec (len vs) (position i (len vs))) as [Hout | Hin]; simpl.
  - rewrite lookup_ge_None_2; [done | unfold len in *; lia].
  - destruct (vs !! Z.to_nat (position i (len vs))) as [v|] eqn:Hv.
    + by apply index_lookup.
    + apply lookup_ge_None_1 in Hv. unfold len in *. lia.
Qed.

(** IndexOne reads from either end: on a list of [n] values, an index that
    reads as the int [i] gives element [i] when [0 ≤ i < n] and element
    [n + i] when [-n ≤ i < 0], so -1 is the last element; every other int,
    and a number that strconv.Atoi finds out of range, throws
    ErrIndexOutOfRange. *)
Theorem index_one_reads_from_either_end (l : List) (idx : Value)
    (σ : gmap positive (list Value)) (vs : list Value) :
  σ !! inner l = Some vs →
  len vs ≤ max_int →
  (∀ i, Atoi (ToString idx) = inl i → 0 ≤ i < len vs →
        ∃ v, vs !! Z.to_nat i = Some v ∧ IndexOne l idx σ = Ok v) ∧
  (∀ i, Atoi (ToString idx) = inl i → - len vs ≤ i < 0 →
        ∃ v, vs !! Z.to_nat (len vs + i) = Some v ∧ IndexOne l idx σ = Ok v) ∧
  (∀ i, Atoi (ToString idx) = inl i → is_int i → i < - len vs ∨ len vs ≤ i →
        IndexOne l idx σ = Panic (Thrown ErrIndexOutOfRange)) ∧
  (Atoi (ToString idx) = inr ErrRange →
   IndexOne l idx σ = Panic (Thrown ErrIndexOutOfRange)).
Proof.
  intros Hσ Hn. pose proof (len_nonneg vs) as H0.
  assert (Hint : ∀ i, - len vs ≤ i < len vs → is_int i)
    by (unfold is_int, min_int, max_int in *; lia).
  split_and!.
  - intros i Hi Hr.
    rewrite (IndexOne_position l idx σ vs i) by (done || apply Hint; lia).
    unfold position. destruct (Z.ltb_spec i 0); [lia|].
    destruct (Z.ltb_spec i 0); [lia|].
    destruct (vs !! Z.to_nat i) as [v|] eqn:Hv; [by exists v|].
    apply lookup_ge_None_1 in Hv. unfold len in *. lia.
  - intros i Hi Hr.
    rewrite (IndexOne_position l idx σ vs i) by (done || apply Hint; lia).
    unfold position. destruct (Z.ltb_spec i 0); [|lia].
    replace (i + len vs) with (len vs + i) by lia.
    destruct (Z.ltb_spec (len vs + i) 0); [lia|].
    destruct (vs !! Z.to_nat (len vs + i)) as [v|] eqn:Hv; [by exists v|].
    apply lookup_ge_None_1 in Hv. unfold len in *. lia.
  - intros i Hi Hi' Hr.
    rewrite (IndexOne_position l idx σ vs i) by done.
    unfold position. destruct (Z.ltb_spec i 0).
    + destruct (Z.ltb_spec (i + len vs) 0); [by destruct (vs !! _) | lia].
    + rewrite lookup_ge_None_2; [done | unfold len in *; lia].
  - intros He. unfold IndexOne, intIndexWithin, intIndex. rewrite Hσ, He. done.
Qed.

(** IndexSet changes one element of the list: when it succeeds, IndexOne on
    the list, through the same List or a copy of it, with an index that
    selects another element, that is out of range or that is no int, gives
    what it gave before, value or error; so the other elements and the
    length stay. *)
Theorem index_set_leaves_the_rest (l : List) (idx v : Value)
    (σ : gmap positive (list Value)) (vs : list Value) (i : Z) :
  σ !! inner l = Some vs →
  len vs ≤ max_int →
  Atoi (ToString idx) = inl i →
  - len vs ≤ i < len vs →
  ∃ σ', IndexSet l idx v σ = Ok σ' ∧
        (∀ l' idx', inner l' = inner l →
           (∀ j, Atoi (ToString idx') = inl j →
                 is_int j ∧ position j (len vs) ≠ position i (len vs)) →
           IndexOne l' idx' σ' = IndexOne l' idx' σ).
Proof.
  intros Hσ Hn Hi Hr. pose proof (len_nonneg vs) as H0.
  assert (Hk : 0 ≤ position i (len vs) < len vs)
    by (unfold position; destruct (Z.ltb_spec i 0); lia).
  assert (Hlt : (Z.to_nat (position i (len vs)) < length vs)%nat)
    by (unfold len in *; lia).
  destruct (lookup_lt_is_Some_2 vs _ Hlt) as [x Hx].
  exists (<[inner l := <[Z.to_nat (position i (len vs)) := v]> vs]> σ). split.
  - unfold IndexSet. rewrite Hσ. simpl.
    rewrite (intIndexWithin_in_range idx (len vs) i) by done. simpl.
    fold (position i (len vs)).
    rewrite (index_lookup vs _ x) by (done || lia). done.
  - intros l' idx' Hl' Hj.
    assert (Hlen : len (<[Z.to_nat (position i (len vs)) := v]> vs) = len vs)
      by (unfold len; by rewrite length_insert).
    destruct (Atoi (ToString idx')) as [j | e] eqn:Hidx.
    + destruct (Hj j eq_refl) as [Hint Hne].
      rewrite (IndexOne_position l' idx' _ (<[Z.to_nat (position i (len vs)) := v]> vs) j);
        [| by rewrite Hl', lookup_insert_eq | done | done | by rewrite Hlen].
      rewrite (IndexOne_position l' idx' σ vs j) by (done || by rewrite Hl').
      rewrite Hlen.
      destruct (Z.ltb_spec (position j (len vs)) 0) as [Hneg | Hpos].
      * replace (Z.to_nat (position j (len vs))) with 0%nat by lia.
        by destruct (_ !! 0%nat), (vs !! 0%nat).
      * rewrite list_lookup_insert_ne by lia. done.
    + unfold IndexOne. rewrite Hl', Hσ, lookup_insert_eq. simpl.
      unfold intIndexWithin, intIndex. rewrite Hidx. by destruct e.
Qed.

(** IndexSet fails exactly when IndexOne with the same index fails, and with
    the same panic: a nil list, an index that is no int, an index out of
    range. *)
Theorem index_set_fails_as_index_one (l : List) (idx v : Value)
    (σ : gmap positive (list Value)) (p : panic) :
  IndexSet l idx v σ = Panic p ↔ IndexOne l idx σ = Panic p.
Proof.
  unfold IndexSet, IndexOne.
  destruct (σ !! inner l) as [vs|]; simpl;
    [|split; intros H; by inversion H].
  destruct (intIndexWithin idx (len vs)) as [i|q]; simpl;
    [|split; intros H; by inversion H].
  destruct (index vs i) as [x|q]; simpl; split; intros H; by inversion H.
Qed.

Section Rest.
Variable StringValue : string → Value.
Variable valueRepr : Value → string.

(** appendStrings appends the strings to the slice that [inner] points to,
    in their order, each made a value by [String]: afterwards the list, and
    every copy of it, reads the values it had followed by the new ones. *)
Theorem appendStrings_appends_in_order (l : List) (ss : list string)
    (σ : gmap positive (list Value)) (vs : list Value) :
  σ !! inner l = Some vs →
  ∃ σ', appendStrings StringValue l ss σ = Ok σ' ∧
        σ' !! inner l = Some (vs ++ (StringValue <$> ss)).
Proof.
  revert σ vs. induction ss as [|s ss IH]; intros σ vs Hσ; simpl.
  - exists σ. by rewrite app_nil_r.
  - rewrite Hσ. simpl.
    destruct (IH (<[inner l := vs ++ [StringValue s]]> σ) (vs ++ [StringValue s]))
      as (σ' & Happ & Hread); [apply lookup_insert_eq|].
    exists σ'. split; [done|]. by rewrite Hread, <- app_assoc.
Qed.

Lemma length_append (s1 s2 : string) :
  String.length (s1 +:+ s2) = (String.length s1 + String.length s2)%nat.
Proof.
  induction s1 as [|c s1 IH]; [done|].
  change (String c s1 +:+ s2) with (String c (s1 +:+ s2)). simpl. by rewrite IH.
Qed.

Lemma WriteElem_more (vs : list Value) : ∀ b,
  String.length (ListReprBuilder.buf b) ≠ 0%nat →
  ListReprBuilder.buf
    (foldl (λ b v, ListReprBuilder.WriteElem (valueRepr v) b) b vs) =
  ListReprBuilder.buf b +:+ eachAfter " " (valueRepr <$> vs).
Proof.
  induction vs as [|v vs IH]; intros b Hb; simpl.
  - by rewrite append_nil_r.
  - rewrite IH.
    + unfold ListReprBuilder.WriteElem.
      destruct (Nat.eqb_spec (String.length (ListReprBuilder.buf b)) 0); [done|].
      simpl. by rewrite !append_assoc.
    + unfold ListReprBuilder.WriteElem.
      destruct (Nat.eqb_spec (String.length (ListReprBuilder.buf b)) 0); [done|].
      simpl. rewrite !length_append. simpl. lia.
Qed.

Lemma concat_eachAfter (sep r : string) (rs : list string) :
  String.concat sep (r :: rs) = r +:+ eachAfter sep rs.
Proof.
  revert r. induction rs as [|r' rs IH]; intros r.
  - simpl. by rewrite append_nil_r.
  - change (String.concat sep (r :: r' :: rs))
      with (r +:+ sep +:+ String.concat sep (r' :: rs)).
    rewrite IH. done.
Qed.

(** Repr writes the elements between brackets with one space between two of
    them, and [[]] for a list without elements. *)
Theorem Repr_brackets_and_spaces (l : List) (σ : gmap positive (list Value))
    (vs : list Value) :
  σ !! inner l = Some vs →
  Repr valueRepr l σ = Ok ("[" +:+ String.concat " " (valueRepr <$> vs) +:+ "]").
Proof.
  intros Hσ. unfold Repr. rewrite Hσ. simpl. destruct vs as [|v vs]; [done|].
  rewrite fmap_cons, concat_eachAfter. simpl foldl.
  unfold ListReprBuilder.String. rewrite WriteElem_more by done.
  change (ListReprBuilder.buf (ListReprBuilder.WriteElem (valueRepr v) (ListReprBuilder.mk "")))
    with ("[" +:+ valueRepr v).
  destruct (Nat.eqb_spec (String.length (("[" +:+ valueRepr v) +:+ eachAfter " " (valueRepr <$> vs))) 0)
    as [H0 | _]; [done|].
  simpl fst. by rewrite !append_assoc.
Qed.

End Rest.
End ListValue.

(** [index_one_reads_from_either_end] on the list [a b c]: the indices 1 and
    -1 select [b] and [c], the index 7 and a number of twenty digits are out
    of range. *)
Lemma index_one_reads_from_either_end_witness :
  let σ : gmap positive (list string) := {[ 1%positive := ["a"; "b"; "c"]%string ]} in
  Eval.IndexOne (env:=Eval.stringEnv) (Eval.mkList 1) "1"%string σ = Ok "b"%string ∧
  Eval.IndexOne (env:=Eval.stringEnv) (Eval.mkList 1) "-1"%string σ = Ok "c"%string ∧
  Eval.IndexOne (env:=Eval.stringEnv) (Eval.mkList 1) "7"%string σ
    = Panic (Thrown ErrIndexOutOfRange) ∧
  Eval.IndexOne (env:=Eval.stringEnv) (Eval.mkList 1) "99999999999999999999"%string σ
    = Panic (Thrown ErrIndexOutOfRange).
Proof.
  intros σ.
  assert (Hσ : σ !! 1%positive = Some ["a"; "b"; "c"]%string) by done.
  assert (Hn : len ["a"; "b"; "c"]%string ≤ max_int) by (by vm_compute).
  split_and!.
  - destruct (proj1 (index_one_reads_from_either_end (env:=Eval.stringEnv) (Eval.mkList 1)
                       "1"%string σ _ Hσ Hn) 1 eq_refl ltac:(by vm_compute))
      as (v & Hv & ->).
    vm_compute in Hv. by injection Hv as <-.
  - destruct (proj1 (proj2 (index_one_reads_from_either_end (env:=Eval.stringEnv)
                              (Eval.mkList 1) "-1"%string σ _ Hσ Hn))
                (-1) eq_refl ltac:(by vm_compute))
      as (v & Hv & ->).
    vm_compute in Hv. by injection Hv as <-.
  - refine (proj1 (proj2 (proj2 (index_one_reads_from_either_end (env:=Eval.stringEnv)
                                   (Eval.mkList 1) "7"%string σ _ Hσ Hn))) 7 eq_refl _ _).
    + by vm_compute.
    + right. by vm_compute.
  - refine (proj2 (proj2 (proj2 (index_one_reads_from_either_end (env:=Eval.stringEnv)
                                   (Eval.mkList 1) "99999999999999999999"%string σ _ Hσ Hn)))
              _).
    by vm_compute.
Defined.

(** [index_set_leaves_the_rest] on the list [a b c]: after the assignment to
    the index -1, the index 0 still selects [a] and the index 3 is still out
    of range. *)
Lemma index_set_leaves_the_rest_witness :
  let σ : gmap positive (list string) := {[ 1%positive := ["a"; "b"; "c"]%string ]} in
  ∃ σ', Eval.IndexSet (env:=Eval.stringEnv) (Eval.mkList 1) "-1"%string "z"%string σ = Ok σ' ∧
        Eval.IndexOne (env:=Eval.stringEnv) (Eval.mkList 1) "0"%string σ' = Ok "a"%string ∧
        Eval.IndexOne (env:=Eval.stringEnv) (Eval.mkList 1) "3"%string σ'
          = Panic (Thrown ErrIndexOutOfRange).
Proof.
  intros σ.
  destruct (index_set_leaves_the_rest (env:=Eval.stringEnv) (Eval.mkList 1) "-1"%string
              "z"%string σ ["a"; "b"; "c"]%string (-1))
    as (σ' & Hset & Hsame); [done | by vm_compute | by vm_compute | by vm_compute |].
  exists σ'. split_and!; [done | |].
  - rewrite (Hsame (Eval.mkList 1) "0"%string eq_refl); [by vm_compute|].
    intros j [= <-]. by vm_compute.
  - rewrite (Hsame (Eval.mkList 1) "3"%string eq_refl); [by vm_compute|].
    intros j [= <-]. by vm_compute.
Defined.

(** [appendStrings_appends_in_order]: two strings after the list [a]. *)
Lemma appendStrings_appends_in_order_witness :
  let σ : gmap positive (list string) := {[ 1%positive := ["a"]%string ]} in
  ∃ σ', Eval.appendStrings (env:=Eval.stringEnv) (λ s, s) (Eval.mkList 1)
          ["b"; "c"]%string σ = Ok σ' ∧
        σ' !! 1%positive = Some ["a"; "b"; "c"]%string.
Proof.
  intros σ.
  apply (appendStrings_appends_in_order (env:=Eval.stringEnv) (λ s, s) (Eval.mkList 1)
           ["b"; "c"]%string σ ["a"]%string).
  done.
Defined.

(** [Repr_brackets_and_spaces]: the list [a b c] and the empty list. *)
Lemma Repr_brackets_and_spaces_witness :
  let σ : gmap positive (list string) :=
    {[ 1%positive := ["a"; "b"; "c"]%string; 2%positive := [] ]} in
  Eval.Repr (env:=Eval.stringEnv) (λ s, s) (Eval.mkList 1) σ = Ok "[a b c]"%string ∧
  Eval.Repr (env:=Eval.stringEnv) (λ s, s) (Eval.mkList 2) σ = Ok "[]"%string.
Proof.
  intros σ. split.
  - apply (Repr_brackets_and_spaces (env:=Eval.stringEnv) (λ s, s) (Eval.mkList 1) σ
             ["a"; "b"; "c"]%string). done.
  - apply (Repr_brackets_and_spaces (env:=Eval.stringEnv) (λ s, s) (Eval.mkList 2) σ []).
    done.
Defined.

(** ** The completion grid, whatever the candidates *)

Lemma bind_Ok {A B} (a : A) (k : A → outcome B) : (Ok a ≫= k) = k a.
Proof. done. Qed.

Lemma forM_invariant {A} (P : A → Prop) (body : Z → A → outcome A) (n : nat) : ∀ i a,
  (∀ j a, i ≤ j < i + Z.of_nat n → P a → ∃ a', body j a = Ok a' ∧ P a') →
  P a → ∃ a', forM i n body a = Ok a' ∧ P a'.
Proof.
  induction n as [|n IH]; intros i a Hbody Ha; simpl; [eauto|].
  destruct (Hbody i a ltac:(lia) Ha) as (a1 & -> & Ha1). simpl.
  apply IH; [|done]. intros j a' Hj. apply Hbody. lia.
Qed.

(** The window of findWindow is a range of the lines, and it is not empty
    when a line is selected and at least one line may be shown. *)
Lemma findWindow_range (total selected max : Z) :
  2 * total ≤ max_int →
  - total ≤ selected ≤ total →
  0 ≤ max ≤ max_int →
  0 ≤ (findWindow total selected max).1 ≤ (findWindow total selected max).2 ∧
  (findWindow total selected max).2 ≤ total ∧
  (1 ≤ max → 0 ≤ selected < total →
   (findWindow total selected max).1 < (findWindow total selected max).2).
Proof.
  intros Ht2 Hs Hm. unfold findWindow.
  destruct (Z.ltb_spec max total) as [Hlt | Hge]; [|simpl; lia].
  assert (Hq : 0 ≤ max ÷ 2 ≤ max).
  { rewrite Z.quot_div_nonneg by lia.
    pose proof (Z.div_mod max 2 ltac:(lia)).
    pose proof (Z.mod_pos_bound max 2 ltac:(lia)). lia. }
  unfold max_int in *. unwrap. unwrap.
  destruct (Z.ltb_spec (selected - max ÷ 2) 0) as [Hlo | Hlo]; simpl.
  - unwrap. lia.
  - destruct (Z.ltb_spec total (selected - max ÷ 2 + max)) as [Hhi | Hhi]; simpl.
    + unwrap. lia.
    + lia.
Qed.

Section Grid.
Context {env : Env}.

Lemma colWidth_is_the_widest (cands : list candidate) : ∀ a,
  a ≤ foldl (λ colWidth cand,
               if colWidth <? wcwidths (text cand)
               then wcwidths (text cand) else colWidth) a cands ∧
  Forall (λ c, wcwidths (text c) ≤
               foldl (λ colWidth cand,
                        if colWidth <? wcwidths (text cand)
                        then wcwidths (text cand) else colWidth) a cands) cands ∧
  (Forall (λ c, wcwidths (text c) ≤ max_int - 2) cands → a ≤ max_int - 2 →
   foldl (λ colWidth cand,
            if colWidth <? wcwidths (text cand)
            then wcwidths (text cand) else colWidth) a cands ≤ max_int - 2).
Proof.
  induction cands as [|c cands IH]; intros a; simpl.
  - split_and!; [lia | constructor | done].
  - destruct (Z.ltb_spec a (wcwidths (text c))) as [Hlt | Hge].
    + destruct (IH (wcwidths (text c))) as (H1 & H2 & H3).
      split_and!; [lia | by constructor |].
      intros Hall _. inversion Hall; subst. by apply H3.
    + destruct (IH a) as (H1 & H2 & H3).
      split_and!; [lia | constructor; [lia | done] |].
      intros Hall Ha. inversion Hall; subst. by apply H3.
Qed.

(** The shape that gridShape returns. *)
Lemma gridShape_shape (cands : list candidate) (bwidth : Z) :
  0 ≤ bwidth →
  len cands + bwidth + 2 ≤ max_int →
  Forall (λ c, wcwidths (text c) ≤ max_int - 2) cands →
  ∃ colWidth cols,
    gridShape cands bwidth = Ok (colWidth, cols, (len cands + cols - 1) / cols) ∧
    0 ≤ colWidth ≤ max_int - 2 ∧ 1 ≤ cols ≤ bwidth + 2 ∧
    Forall (λ c, wcwidths (text c) ≤ colWidth) cands ∧
    (colWidth ≤ bwidth → cols * (colWidth + 2) ≤ bwidth + 2).
Proof.
  intros Hw Hlen Hall. pose proof (len_nonneg cands) as H0. unfold gridShape.
  cbv zeta.
  destruct (colWidth_is_the_widest cands 0) as (Hm0 & Hmax & Hmi).
  specialize (Hmi Hall ltac:(unfold max_int; lia)).
  set (m := foldl _ 0 cands) in *.
  unfold int_quot. unfold max_int in *.
  assert (Hm2 : m ⊕ 2 = m + 2) by (unwrap; done).
  assert (Hb2 : bwidth ⊕ 2 = bwidth + 2) by (unwrap; done).
  rewrite Hm2, Hb2.
  destruct (Z.eqb_spec (m + 2) 0) as [?|_]; [lia|].
  rewrite Z.quot_div_nonneg by lia.
  assert (Hc0 : 0 ≤ (bwidth + 2) / (m + 2) ≤ bwidth + 2).
  { split; [apply Z.div_pos; lia|].
    apply Z.div_le_upper_bound; [lia|]. nia. }
  assert (Hcm : (bwidth + 2) / (m + 2) * (m + 2) ≤ bwidth + 2).
  { pose proof (Z.mul_div_le (bwidth + 2) (m + 2) ltac:(lia)). lia. }
  rewrite wrap_small by (unfold is_int, min_int, max_int; lia). simpl.
  set (cols := if (bwidth + 2) / (m + 2) =? 0 then 1 else (bwidth + 2) / (m + 2)).
  assert (Hcols : 1 ≤ cols ≤ bwidth + 2)
    by (unfold cols; destruct (Z.eqb_spec ((bwidth + 2) / (m + 2)) 0); lia).
  unfold CeilDiv, int_quot.
  destruct (Z.eqb_spec cols 0) as [?|_]; [lia|].
  assert (Hn : len cands ⊕ cols ⊖ 1 = len cands + cols - 1) by (unwrap; done).
  rewrite Hn. rewrite Z.quot_div_nonneg by lia.
  assert (Hl : 0 ≤ (len cands + cols - 1) / cols ≤ len cands + cols - 1).
  { split; [apply Z.div_pos; lia|].
    apply Z.div_le_upper_bound; [lia|]. nia. }
  rewrite wrap_small by (unfold is_int, min_int, max_int; lia). simpl.
  exists m, cols. split_and!; try done; try lia.
  intros Hfit. unfold cols.
  destruct (Z.eqb_spec ((bwidth + 2) / (m + 2)) 0) as [Hz | Hnz]; lia.
Qed.

(** The number of rows is the least that holds the candidates. *)
Lemma rows_hold_the_candidates (n cols : Z) :
  0 ≤ n → 1 ≤ cols →
  cols * ((n + cols - 1) / cols - 1) < n ≤ cols * ((n + cols - 1) / cols).
Proof.
  intros Hn Hc.
  pose proof (Z.div_mod (n + cols - 1) cols ltac:(lia)) as Hdm.
  pose proof (Z.mod_pos_bound (n + cols - 1) cols ltac:(lia)) as Hmb.
  nia.
Qed.

(** Every candidate has its place in the grid, and only one: with at least
    one candidate, gridShape gives at least one column and one row, no more
    rows than the candidates need, a column as wide as the widest candidate
    (so that no padding is negative) and columns that fit the buffer when
    that candidate does; candidate [k] is shown at row [k mod rows] of
    column [k / rows], and no other row and column of the grid show it. *)
Theorem grid_holds_every_candidate_once (cands : list candidate) (bwidth : Z) :
  cands ≠ [] →
  0 ≤ bwidth →
  len cands + bwidth + 2 ≤ max_int →
  Forall (λ c, wcwidths (text c) ≤ max_int - 2) cands →
  ∃ colWidth cols lines,
    gridShape cands bwidth = Ok (colWidth, cols, lines) ∧
    1 ≤ cols ∧ 1 ≤ lines ∧
    cols * (lines - 1) < len cands ≤ cols * lines ∧
    Forall (λ c, wcwidths (text c) ≤ colWidth) cands ∧
    (colWidth ≤ bwidth → cols * (colWidth + 2) ≤ bwidth + 2) ∧
    (∀ k, 0 ≤ k < len cands →
          0 ≤ k mod lines < lines ∧ 0 ≤ k / lines < cols ∧
          gridIndex lines (k mod lines) (k / lines) = k) ∧
    (∀ i j, 0 ≤ i < lines → 0 ≤ j < cols →
            i = gridIndex lines i j mod lines ∧ j = gridIndex lines i j / lines).
Proof.
  intros Hne Hw Hlen Hall.
  destruct (gridShape_shape cands bwidth Hw Hlen Hall)
    as (colWidth & cols & Hshape & Hcw & Hcols & Hmax & Hfit).
  assert (H1 : 1 ≤ len cands) by (unfold len; destruct cands; [done | simpl; lia]).
  pose proof (rows_hold_the_candidates (len cands) cols ltac:(lia) ltac:(lia)) as Hrows.
  set (lines := (len cands + cols - 1) / cols) in *.
  assert (Hl : 1 ≤ lines) by nia.
  assert (Hidx : ∀ i j, 0 ≤ i < lines → 0 ≤ j < cols → gridIndex lines i j = j * lines + i).
  { intros i j Hi Hj. unfold gridIndex. unfold max_int in *.
    assert (0 ≤ j * lines ∧ j * lines + i < cols * lines) by nia.
    assert (cols * lines ≤ len cands + cols - 1 + cols * 1) by nia.
    assert (cols * lines ≤ len cands + cols - 1).
    { unfold lines. pose proof (Z.mul_div_le (len cands + cols - 1) cols ltac:(lia)). lia. }
    unfold int_mul, int_add.
    rewrite (wrap_small (j * lines)) by (unfold is_int, min_int, max_int; lia).
    rewrite wrap_small by (unfold is_int, min_int, max_int; lia). done. }
  exists colWidth, cols, lines. split_and!; try done; try lia.
  - intros k Hk.
    pose proof (Z.mod_pos_bound k lines ltac:(lia)) as Hmod.
    assert (Hdiv : 0 ≤ k / lines < cols).
    { split; [apply Z.div_pos; lia|]. apply Z.div_lt_upper_bound; nia. }
    split_and!; try lia.
    rewrite Hidx by lia. pose proof (Z.div_mod k lines ltac:(lia)). lia.
  - intros i j Hi Hj. rewrite Hidx by done. split.
    + rewrite Z.add_comm, Z.mod_add by lia. by rewrite Z.mod_small by lia.
    + rewrite Z.add_comm, Z.div_add by lia. rewrite Z.div_small by lia. lia.
Qed.

(** The completion listing is always written when there is a candidate: the
    window of rows lies within the grid, every index into the candidates is
    within their number and no padding is negative, so nothing in it
    panics. The number of rows it reports is at least 1. *)
Theorem completion_listing_never_panics (comp : completion) (width listingHeight : Z) :
  completion.candidates comp ≠ [] →
  0 ≤ width →
  len (completion.candidates comp) + width + 2 ≤ max_int →
  2 * len (completion.candidates comp) ≤ max_int →
  Forall (λ c, 0 ≤ wcwidths (text c) ≤ max_int - 2) (completion.candidates comp) →
  1 ≤ listingHeight ≤ max_int →
  ∃ b lines, listing width listingHeight (Some comp) None = Ok (Some b, Some lines) ∧
             writable b ∧ 1 ≤ lines.
Proof.
  intros Hne Hw Hlen Hlen2 Hall0 Hh.
  set (cands := completion.candidates comp) in *.
  assert (Hall : Forall (λ c, wcwidths (text c) ≤ max_int - 2) cands)
    by (eapply Forall_impl; [exact Hall0 | simpl; intros; lia]).
  destruct (gridShape_shape cands width Hw Hlen Hall)
    as (colWidth & cols & Hshape & Hcw & Hcols & Hmax & Hfit).
  assert (H1 : 1 ≤ len cands) by (unfold len; destruct cands; [done | simpl; lia]).
  pose proof (rows_hold_the_candidates (len cands) cols ltac:(lia) ltac:(lia)) as Hrows.
  set (lines := (len cands + cols - 1) / cols) in *.
  assert (Hl : 1 ≤ lines) by nia.
  assert (Hll : lines ≤ len cands) by nia.
  unfold listing.
  destruct (Z.ltb_spec 0 listingHeight) as [_|?]; [|lia].
  rewrite bool_decide_true by eauto. simpl orb. cbv iota.
  unfold newBuffer. destruct (Z.ltb_spec width 0) as [?|_]; [lia|]. simpl.
  unfold completionListing. fold cands. cbn [Edit.width]. rewrite Hshape. simpl.
  unfold int_rem. destruct (Z.eqb_spec lines 0) as [?|_]; [lia|]. simpl.
  pose proof (Z.rem_bound_abs (completion.current comp) lines ltac:(lia)) as Hrem.
  destruct (findWindow_range lines (Z.rem (completion.current comp) lines) listingHeight)
    as ((Hlow & _) & Hhigh & _); [lia | lia | lia |].
  destruct (findWindow lines (Z.rem (completion.current comp) lines) listingHeight)
    as [low high]. simpl in Hlow, Hhigh.
  set (P := λ b : buffer, writable b ∧ indent b = 0).
  unfold for_range at 1.
  match goal with
  | |- context [forM low ?n ?body ?b0] =>
      destruct (forM_invariant P body n low b0) as (b & Hb & HP)
  end.
  - intros i b Hi [Hwb Hib].
    assert (∃ b1, (if low <? i then newline b else Ok b) = Ok b1 ∧ P b1)
      as (b1 & -> & Hb1).
    { destruct (low <? i).
      - destruct (newline_writable b Hwb ltac:(unfold max_int; lia)) as (b1 & -> & ? & ? & _).
        exists b1. split; [done|]. split; [done | lia].
      - exists b. done. }
    simpl. unfold for_range. apply forM_invariant; [|done].
    intros j b2 Hj [Hwb2 Hib2].
    assert (Hk : gridIndex lines i j = j * lines + i).
    { unfold gridIndex, int_mul, int_add. unfold max_int in *.
      assert (0 ≤ j * lines ∧ j * lines + i < cols * lines) by nia.
      assert (cols * lines ≤ len cands + cols - 1).
      { unfold lines. pose proof (Z.mul_div_le (len cands + cols - 1) cols ltac:(lia)). lia. }
      rewrite (wrap_small (j * lines)) by (unfold is_int, min_int, max_int; lia).
      rewrite wrap_small by (unfold is_int, min_int, max_int; lia). done. }
    simpl. rewrite Hk.
    destruct (Z.leb_spec (len cands) (j * lines + i)) as [Hout | Hin]; [by exists b2|].
    assert (Hk0 : 0 ≤ j * lines + i) by nia.
    assert (Hlt : (Z.to_nat (j * lines + i) < length cands)%nat) by (unfold len in *; lia).
    destruct (lookup_lt_is_Some_2 cands _ Hlt) as [cand Hcand].
    rewrite (index_lookup cands _ cand Hk0 Hcand). simpl.
    pose proof (proj1 (Forall_lookup _ _) Hmax _ _ Hcand) as Hcm. simpl in Hcm.
    pose proof (proj1 (Forall_lookup _ _) Hall0 _ _ Hcand) as Hca. simpl in Hca.
    assert (Hpad : colWidth ⊖ wcwidths (text cand) = colWidth - wcwidths (text cand)).
    { unfold int_sub. apply wrap_small. clear -Hca Hcm Hcw.
      unfold is_int, min_int, max_int in *. lia. }
    destruct (writes_writable (text cand)
                (if j * lines + i =? completion.current comp
                 then attrForCurrentCompletion else "") b2 Hwb2
                ltac:(unfold max_int; lia)) as (b3 & -> & Hwb3 & Hib3 & _).
    simpl. unfold writePadding.
    rewrite Hpad.
    destruct (Z.ltb_spec (colWidth - wcwidths (text cand)) 0) as [Hneg | _]; [lia|].
    destruct (writes_writable (replicate (Z.to_nat (colWidth - wcwidths (text cand))) 32)
                (if j * lines + i =? completion.current comp
                 then attrForCurrentCompletion else "") b3 Hwb3
                ltac:(unfold max_int; lia)) as (b4 & -> & Hwb4 & Hib4 & _).
    simpl.
    destruct (writes_writable (replicate (Z.to_nat 2) 32) "" b4 Hwb4
                ltac:(unfold max_int; lia)) as (b5 & Hb5 & Hwb5 & Hib5 & _).
    exists b5. split; [exact Hb5|]. split; [done | lia].
  - split; [split; simpl; [done | lia] | done].
  - rewrite Hb. simpl. exists b, lines. split_and!; [done | apply HP | done].
Qed.

(** A completion context without candidates makes refresh panic: whenever
    the terminal leaves at least one line for the listing, the grid gets 0
    rows, and [comp.current % lines] divides by zero. *)
Theorem completion_without_candidates_panics (w : writer) (width height : Z)
    (bufLine : buffer) (bufMode bufTips : option buffer) (comp : completion)
    (nav : option navigation) :
  completion.candidates comp = [] →
  0 ≤ width ≤ max_int - 2 →
  height ≤ max_int →
  len (elems (cells bufLine)) + nlines bufMode + nlines bufTips < height →
  refresh w width height bufLine bufMode bufTips (Some comp) nav =
    Panic IntegerDivideByZero.
Proof.
  intros Hc Hw Hh Hsum. pose proof (len_nonneg (elems (cells bufLine))) as H0.
  pose proof (nlines_nonneg bufMode) as Hm. pose proof (nlines_nonneg bufTips) as Ht.
  set (n := len (elems (cells bufLine)) + (nlines bufMode + (nlines bufTips + 0))).
  assert (Hfit : fitHeight height bufLine bufMode bufTips =
                 Ok (height - n, Some bufLine, bufMode, bufTips)).
  { unfold fitHeight. rewrite !lines_sum by (simpl; lia). simpl foldr. fold n.
    destruct (Z.leb_spec n height); [|lia].
    unfold int_sub. rewrite wrap_small; [done|].
    unfold is_int, min_int, max_int in *. lia. }
  assert (Hgrid : ∃ colWidth cols, gridShape [] width = Ok (colWidth, cols, 0)).
  { destruct (gridShape_shape [] width) as (colWidth & cols & Hshape & _ & Hcols & _).
    - lia.
    - unfold len. simpl. lia.
    - constructor.
    - exists colWidth, cols. rewrite Hshape. do 3 f_equal.
      apply Z.div_small. unfold len. simpl. lia. }
  destruct Hgrid as (colWidth & cols & Hgrid).
  assert (Hcomp : ∀ b, width = Edit.width b →
            completionListing comp (height - n) b = Panic IntegerDivideByZero).
  { intros b Hb. unfold completionListing. rewrite Hc, <- Hb, Hgrid. done. }
  assert (Hlist : listing width (height - n) (Some comp) nav = Panic IntegerDivideByZero).
  { unfold listing. destruct (Z.ltb_spec 0 (height - n)); [|lia].
    rewrite bool_decide_true by eauto. simpl orb. cbv iota.
    unfold newBuffer. destruct (Z.ltb_spec width 0) as [?|_]; [lia|].
    rewrite bind_Ok, Hcomp; done. }
  unfold refresh, frame. rewrite Hfit, bind_Ok. cbv beta iota. rewrite Hlist. done.
Qed.

End Grid.

(** [grid_holds_every_candidate_once] for five candidates of printable ASCII
    in a buffer 20 columns wide. *)
Lemma grid_holds_every_candidate_once_witness :
  let cands : list candidate :=
    mkCandidate <$> [[97; 97; 97]; [98; 98; 98; 98; 98]; [99; 99];
                     [100; 100; 100; 100]; [101; 101; 101]] in
  ∃ colWidth cols lines,
    gridShape (env:=asciiEnv) cands 20 = Ok (colWidth, cols, lines) ∧
    1 ≤ cols ∧ 1 ≤ lines ∧
    cols * (lines - 1) < len cands ≤ cols * lines ∧
    Forall (λ c, wcwidths (Env:=asciiEnv) (text c) ≤ colWidth) cands ∧
    (colWidth ≤ 20 → cols * (colWidth + 2) ≤ 20 + 2) ∧
    (∀ k, 0 ≤ k < len cands →
          0 ≤ k mod lines < lines ∧ 0 ≤ k / lines < cols ∧
          gridIndex lines (k mod lines) (k / lines) = k) ∧
    (∀ i j, 0 ≤ i < lines → 0 ≤ j < cols →
            i = gridIndex lines i j mod lines ∧ j = gridIndex lines i j / lines).
Proof.
  intros cands.
  apply (grid_holds_every_candidate_once (env:=asciiEnv) cands 20).
  - done.
  - lia.
  - by vm_compute.
  - repeat constructor; by vm_compute.
Defined.

(** [completion_listing_never_panics] for three candidates, the second one
    current, in a terminal 20 columns wide with 4 lines for the listing. *)
Lemma completion_listing_never_panics_witness :
  let comp : completion :=
    completion.mk (mkCandidate <$> [[97; 97]; [98]; [99; 99; 99]]) 1 in
  ∃ b lines, listing (env:=asciiEnv) 20 4 (Some comp) None = Ok (Some b, Some lines) ∧
             writable b ∧ 1 ≤ lines.
Proof.
  intros comp.
  apply (completion_listing_never_panics (env:=asciiEnv) comp 20 4).
  - done.
  - lia.
  - by vm_compute.
  - by vm_compute.
  - repeat constructor; by vm_compute.
  - by vm_compute.
Defined.

(** [completion_without_candidates_panics] in a terminal of 80 columns and 24
    lines, on an input line of one line. *)
Lemma completion_without_candidates_panics_witness :
  refresh (env:=asciiEnv)
    (mkWriter 1 (Some (mkBuffer 0 0 0 false (Some [[]]) (pos.mk 0 0)))) 80 24
    (mkBuffer 80 1 0 true (Some [[cell.mk 97 1 ""]]) (pos.mk 0 1)) None None
    (Some (completion.mk [] 0)) None = Panic IntegerDivideByZero.
Proof.
  apply (completion_without_candidates_panics (env:=asciiEnv)); by vm_compute.
Defined.

(** ** The navigation listing *)

Lemma trimToWindow_window (s : list runes) (selected max : Z) :
  2 * len s ≤ max_int →
  - len s ≤ selected ≤ len s →
  0 ≤ max ≤ max_int →
  trimToWindow s selected max =
    Ok (take (Z.to_nat ((findWindow (len s) selected max).2 - (findWindow (len s) selected max).1))
          (drop (Z.to_nat (findWindow (len s) selected max).1) s),
        (findWindow (len s) selected max).1).
Proof.
  intros Ht2 Hs Hm.
  destruct (findWindow_range (len s) selected max Ht2 Hs Hm) as (Hlow & Hhigh & _).
  unfold trimToWindow.
  destruct (findWindow (len s) selected max) as [low high]. simpl in *.
  unfold slice_range.
  destruct (Z.ltb_spec low 0); [lia|].
  destruct (Z.ltb_spec high low); [lia|].
  destruct (Z.ltb_spec (len s) high); [lia|]. done.
Qed.

Section Navigation.
Context {env : Env}.

Lemma writePadding_writable (n : Z) (attr : string) (b : buffer) :
  0 ≤ n → writable b → indent b ≤ max_int →
  ∃ b', writePadding n attr b = Ok b' ∧ writable b' ∧ indent b' = indent b.
Proof.
  intros Hn Hb Hi. unfold writePadding. destruct (Z.ltb_spec n 0); [lia|].
  destruct (writes_writable (replicate (Z.to_nat n) 32) attr b Hb Hi) as (b' & ? & ? & ? & _).
  eauto.
Qed.

(** A name of the parent directory that is wider than its column makes the
    navigation listing panic: the column is [(width + 1) / 2] wide, the name
    is trimmed to it, and the padding after it is asked for with the
    negative count [parentWidth - wcwidths(text)], which strings.Repeat
    refuses. It is enough that the first name shown is that wide. *)
Theorem navigation_wide_name_panics (nav : navigation) (width listingHeight : Z)
    (text : runes) :
  0 ≤ width ≤ max_int - 1 →
  1 ≤ listingHeight ≤ max_int →
  2 * len (names (navigation.parent nav)) ≤ max_int →
  2 * len (names (navigation.current nav)) ≤ max_int →
  0 ≤ selected (navigation.parent nav) < len (names (navigation.parent nav)) →
  - len (names (navigation.current nav)) ≤ selected (navigation.current nav)
    ≤ len (names (navigation.current nav)) →
  names (navigation.parent nav)
    !! Z.to_nat (findWindow (len (names (navigation.parent nav)))
                   (selected (navigation.parent nav)) listingHeight).1 = Some text →
  (width + 1) / 2 < wcwidths text ≤ max_int →
  navigationListing nav width listingHeight = Panic NegativeRepeatCount.
Proof.
  intros Hw Hh Hp2 Hc2 Hps Hcs Htext Hwide.
  unfold navigationListing, newBuffer.
  destruct (Z.ltb_spec width 0) as [?|_]; [lia|]. rewrite bind_Ok.
  rewrite (trimToWindow_window (names (navigation.current nav))) by (done || lia).
  rewrite bind_Ok. cbv beta iota.
  rewrite (trimToWindow_window (names (navigation.parent nav))) by (done || lia).
  rewrite bind_Ok. cbv beta iota.
  destruct (findWindow_range (len (names (navigation.parent nav)))
              (selected (navigation.parent nav)) listingHeight)
    as (Hlow & Hhigh & Hne); [done | lia | lia |].
  specialize (Hne ltac:(lia) Hps).
  set (filenames := take _ (drop _ (names (navigation.current nav)))).
  set (low := (findWindow (len (names (navigation.current nav))) _ _).1).
  destruct (findWindow (len (names (navigation.parent nav)))
              (selected (navigation.parent nav)) listingHeight) as [plow phigh].
  simpl in Hlow, Hhigh, Hne, Htext. cbn [fst snd].
  assert (Hdrop : ∃ rest, take (Z.to_nat (phigh - plow))
                            (drop (Z.to_nat plow) (names (navigation.parent nav)))
                          = text :: rest).
  { destruct (drop (Z.to_nat plow) (names (navigation.parent nav))) as [|t rest] eqn:Hd.
    - apply (f_equal (λ l, l !! 0%nat)) in Hd. rewrite lookup_drop, Nat.add_0_r in Hd.
      rewrite Htext in Hd. done.
    - apply (f_equal (λ l, l !! 0%nat)) in Hd as Hd0.
      rewrite lookup_drop, Nat.add_0_r, Htext in Hd0. injection Hd0 as <-.
      destruct (Z.to_nat (phigh - plow)) as [|k] eqn:Hk; [lia|].
      simpl. eauto. }
  destruct Hdrop as (rest & ->).
  unfold int_quot. change (2 =? 0) with false. cbv iota.
  assert (Hpw : wrap ((width ⊕ 1) ÷ 2) = (width + 1) / 2).
  { unfold max_int in *. unwrap. rewrite Z.quot_div_nonneg by lia.
    pose proof (Z.div_mod (width + 1) 2 ltac:(lia)).
    pose proof (Z.mod_pos_bound (width + 1) 2 ltac:(lia)).
    apply wrap_small. unfold is_int, min_int, max_int. lia. }
  rewrite Hpw, bind_Ok.
  assert (Hn : ∃ n, Z.to_nat (Z.max (len filenames) (len (text :: rest)) - 0) = S n).
  { exists (Nat.pred (Z.to_nat (Z.max (len filenames) (len (text :: rest)) - 0))).
    unfold len. simpl length. lia. }
  destruct Hn as (n & Hn). unfold for_range. rewrite Hn.
  cbn [forM]. change (0 <? 0) with false. cbv iota. rewrite bind_Ok.
  assert (Hi : (0 <? len (text :: rest)) = true)
    by (apply Z.ltb_lt; unfold len; simpl length; lia).
  rewrite Hi.
  assert (Hidx : index (text :: rest) 0 = Ok text).
  { apply index_lookup; [lia | done]. }
  rewrite Hidx, bind_Ok.
  destruct (writes_writable (trimWcwidth text ((width + 1) / 2))
              (if 0 ⊕ plow =? selected (navigation.parent nav)
               then attrForSelectedFile else "")
              (mkBuffer width 0 0 false (Some [[]]) (pos.mk 0 0)))
    as (b1 & Hb1 & _); [split; simpl; [done | lia] | simpl; unfold max_int; lia |].
  rewrite Hb1, bind_Ok.
  assert (Hneg : ((width + 1) / 2 ⊖ wcwidths text <? 0) = true).
  { apply Z.ltb_lt. unfold int_sub.
    pose proof (Z.div_pos (width + 1) 2 ltac:(lia) ltac:(lia)).
    rewrite wrap_small; [lia|]. unfold is_int, min_int, max_int in *. lia. }
  assert (Hpad : ∀ attr b, writePadding ((width + 1) / 2 ⊖ wcwidths text) attr b
                           = Panic NegativeRepeatCount)
    by (intros; unfold writePadding; by rewrite Hneg).
  rewrite Hpad. done.
Qed.

(** When no name is wider than its column, the navigation listing is
    always written: the parent column is [(width + 1) / 2] wide, the column
    of the current directory has the rest but one, and no padding is
    negative; the windows of names lie within the names, so no index is out
    of range. *)
Theorem navigation_listing_never_panics (nav : navigation) (width listingHeight : Z) :
  0 ≤ width ≤ max_int - 1 →
  0 ≤ listingHeight ≤ max_int →
  2 * len (names (navigation.parent nav)) ≤ max_int →
  2 * len (names (navigation.current nav)) ≤ max_int →
  - len (names (navigation.parent nav)) ≤ selected (navigation.parent nav)
    ≤ len (names (navigation.parent nav)) →
  - len (names (navigation.current nav)) ≤ selected (navigation.current nav)
    ≤ len (names (navigation.current nav)) →
  wcwidths [] = 0 →
  Forall (λ t, 0 ≤ wcwidths t ≤ (width + 1) / 2) (names (navigation.parent nav)) →
  Forall (λ t, 0 ≤ wcwidths t ≤ width - 1 - (width + 1) / 2)
    (names (navigation.current nav)) →
  ∃ b, navigationListing nav width listingHeight = Ok b ∧ writable b.
Proof.
  intros Hw Hh Hp2 Hc2 Hps Hcs Hempty Hpar Hcur.
  unfold navigationListing, newBuffer.
  destruct (Z.ltb_spec width 0) as [?|_]; [lia|]. rewrite bind_Ok.
  rewrite (trimToWindow_window (names (navigation.current nav))) by (done || lia).
  rewrite bind_Ok. cbv beta iota.
  rewrite (trimToWindow_window (names (navigation.parent nav))) by (done || lia).
  rewrite bind_Ok. cbv beta iota.
  set (filenames := take _ (drop _ (names (navigation.current nav)))).
  set (low := (findWindow (len (names (navigation.current nav))) _ _).1).
  set (parentFilenames := take _ (drop _ (names (navigation.parent nav)))).
  set (parentLow := (findWindow (len (names (navigation.parent nav))) _ _).1).
  assert (Hpar' : Forall (λ t, 0 ≤ wcwidths t ≤ (width + 1) / 2) parentFilenames)
    by (by apply Forall_take, Forall_drop).
  assert (Hcur' : Forall (λ t, 0 ≤ wcwidths t ≤ width - 1 - (width + 1) / 2) filenames)
    by (by apply Forall_take, Forall_drop).
  clearbody filenames low parentFilenames parentLow.
  unfold int_quot. change (2 =? 0) with false. cbv iota.
  pose proof (Z.div_mod (width + 1) 2 ltac:(lia)) as Hdm.
  pose proof (Z.mod_pos_bound (width + 1) 2 ltac:(lia)) as Hmb.
  assert (Hpw : wrap ((width ⊕ 1) ÷ 2) = (width + 1) / 2).
  { unfold max_int in *. unwrap. rewrite Z.quot_div_nonneg by lia.
    apply wrap_small. unfold is_int, min_int, max_int. lia. }
  rewrite Hpw, bind_Ok.
  assert (Hcw : width ⊖ 1 ⊖ (width + 1) / 2 = width - 1 - (width + 1) / 2)
    by (unfold max_int in *; unwrap; done).
  rewrite Hcw.
  set (P := λ b : buffer, writable b ∧ indent b = 0).
  unfold for_range.
  match goal with
  | |- context [forM 0 ?n ?body ?b0] =>
      destruct (forM_invariant P body n 0 b0) as (b & Hb & HP)
  end.
  - intros i b Hrange [Hwb Hib].
    assert (∃ b1, (if 0 <? i then newline b else Ok b) = Ok b1 ∧ P b1)
      as (b1 & -> & Hwb1 & Hib1).
    { destruct (0 <? i).
      - destruct (newline_writable b Hwb ltac:(unfold max_int; lia)) as (b1 & -> & ? & ? & _).
        exists b1. split; [done|]. split; [done | lia].
      - exists b. done. }
    rewrite bind_Ok.
    assert (∃ text, (if i <? len parentFilenames then index parentFilenames i else Ok [])
                    = Ok text ∧ 0 ≤ wcwidths text ≤ (width + 1) / 2)
      as (text & -> & Htext).
    { destruct (Z.ltb_spec i (len parentFilenames)) as [Hi | Hi].
      - unfold index. destruct (Z.ltb_spec i 0) as [Hneg | Hpos].
        + exfalso. lia.
        + destruct (Z.leb_spec (len parentFilenames) i); [lia|]. simpl.
          destruct (parentFilenames !! Z.to_nat i) as [t|] eqn:Ht.
          * exists t. split; [done|]. exact (proj1 (Forall_lookup _ _) Hpar' _ _ Ht).
          * apply lookup_ge_None_1 in Ht. unfold len in *. lia.
      - exists []. split; [done|]. rewrite Hempty. lia. }
    rewrite bind_Ok.
    destruct (writes_writable (trimWcwidth text ((width + 1) / 2))
                (if i ⊕ parentLow =? selected (navigation.parent nav)
                 then attrForSelectedFile else "") b1 Hwb1 ltac:(unfold max_int; lia))
      as (b2 & -> & Hwb2 & Hib2 & _).
    rewrite bind_Ok.
    assert (Hpp : (width + 1) / 2 ⊖ wcwidths text = (width + 1) / 2 - wcwidths text)
      by (unfold max_int in *; unwrap; done).
    rewrite Hpp.
    destruct (writePadding_writable ((width + 1) / 2 - wcwidths text)
                (if i ⊕ parentLow =? selected (navigation.parent nav)
                 then attrForSelectedFile else "") b2)
      as (b3 & -> & Hwb3 & Hib3); [lia | done | unfold max_int; lia |].
    rewrite bind_Ok.
    destruct (writePadding_writable 1 "" b3 ltac:(lia) Hwb3 ltac:(unfold max_int; lia))
      as (b4 & -> & Hwb4 & Hib4).
    rewrite bind_Ok.
    destruct (Z.ltb_spec i (len filenames)) as [Hi | Hi].
    + assert (∃ t, index filenames i = Ok t ∧
                   0 ≤ wcwidths t ≤ width - 1 - (width + 1) / 2) as (t & -> & Ht).
      { unfold index. destruct (Z.ltb_spec i 0) as [Hneg | Hpos]; [exfalso; lia|].
        destruct (Z.leb_spec (len filenames) i); [lia|]. simpl.
        destruct (filenames !! Z.to_nat i) as [t|] eqn:Ht.
        - exists t. split; [done|]. exact (proj1 (Forall_lookup _ _) Hcur' _ _ Ht).
        - apply lookup_ge_None_1 in Ht. unfold len in *. lia. }
      rewrite bind_Ok.
      destruct (writes_writable (trimWcwidth t (width - 1 - (width + 1) / 2))
                  (if i ⊕ low =? selected (navigation.current nav)
                   then attrForSelectedFile else "") b4 Hwb4 ltac:(unfold max_int; lia))
        as (b5 & -> & Hwb5 & Hib5 & _).
      rewrite bind_Ok.
      assert (Hcp : width - 1 - (width + 1) / 2 ⊖ wcwidths t
                    = width - 1 - (width + 1) / 2 - wcwidths t)
        by (unfold max_int in *; unwrap; done).
      rewrite Hcp.
      destruct (writePadding_writable (width - 1 - (width + 1) / 2 - wcwidths t)
                  (if i ⊕ low =? selected (navigation.current nav)
                   then attrForSelectedFile else "") b5)
        as (b6 & Hb6 & Hwb6 & Hib6); [lia | done | unfold max_int; lia |].
      exists b6. split; [exact Hb6|]. split; [done | lia].
    + exists b4. split; [done|]. split; [done | lia].
  - split; [split; simpl; [done | lia] | done].
  - exists b. split; [exact Hb | apply HP].
Qed.

End Navigation.

(** [navigation_wide_name_panics] in a terminal 10 columns wide: the parent
    directory holds a name of 8 letters, its column is 5 wide. *)
Lemma navigation_wide_name_panics_witness :
  navigationListing (env:=asciiEnv)
    (navigation.mk (mkNavColumn [[97]] 0)
                   (mkNavColumn [[100; 111; 119; 110; 108; 111; 97; 100]] 0))
    10 3 = Panic NegativeRepeatCount.
Proof.
  apply (navigation_wide_name_panics (env:=asciiEnv) _ 10 3
           [100; 111; 119; 110; 108; 111; 97; 100]); by vm_compute.
Defined.

(** ** The bytes that paint the frame *)

(** Cells of the style in force are written as their text. *)
Lemma paintLine_same (l : list cell) : ∀ out a,
  Forall (λ c, cell.attr c = a) l →
  paintLine l (out, a) = (out +:+ lineText l, a).
Proof.
  induction l as [|c l IH]; intros out a Hall.
  - simpl. by rewrite append_nil_r.
  - inversion Hall as [|? ? Hc Hl]; subst.
    change (paintLine (c :: l) (out, cell.attr c))
      with (paintLine l
              (let '(out, attr) :=
                 if (0 <? cell.width c) && negb (String.eqb (cell.attr c) (cell.attr c))
                 then (out +:+ ESC +:+ "[m" +:+ ESC +:+ "[" +:+ cell.attr c +:+ "m", cell.attr c)
                 else (out, cell.attr c) in
               (out +:+ string_of_rune (cell.rune c), attr))).
    rewrite String.eqb_refl, andb_false_r. rewrite (IH _ _ Hl).
    simpl lineText. by rewrite append_assoc.
Qed.

Lemma paintLines_same (ls : list (list cell)) : ∀ i out a,
  0 < i →
  Forall (Forall (λ c, cell.attr c = a)) ls →
  paintLines i ls (out, a) = (out +:+ eachAfter LF (lineText <$> ls), a).
Proof.
  induction ls as [|l ls IH]; intros i out a Hi Hall.
  - simpl. by rewrite append_nil_r.
  - inversion Hall as [|? ? Hl Hls]; subst. simpl paintLines.
    destruct (Z.ltb_spec 0 i) as [_|?]; [|lia]. simpl fst. simpl snd.
    rewrite (paintLine_same l _ _ Hl), (IH (i + 1) _ _ ltac:(lia) Hls).
    rewrite fmap_cons. simpl eachAfter. by rewrite !append_assoc.
Qed.

(** commitBuffer sets a style once for a run of cells: cells of one style
    are written as the sequence that sets the style, then their text; the
    sequence is left out when that style is in force already. A cell
    without width does not change the style, so the run has to begin with a
    cell that has a width. *)
Theorem a_run_of_cells_sets_its_style_once (l : list cell) (out a attr : string) :
  Forall (λ c, cell.attr c = a) l →
  a = attr ∨ (∃ c l', l = c :: l' ∧ 0 < cell.width c) →
  paintLine l (out, attr) =
    (out +:+ (if String.eqb a attr then "" else styleSeq a) +:+ lineText l, a).
Proof.
  intros Hall Hrun. destruct (String.eqb_spec a attr) as [<- | Hne].
  - by rewrite (paintLine_same l out a Hall).
  - destruct Hrun as [? | (c & l' & -> & Hw)]; [done|].
    inversion Hall as [|? ? Hc Hl]; subst.
    change (paintLine (c :: l') (out, attr))
      with (paintLine l'
              (let '(out, attr) :=
                 if (0 <? cell.width c) && negb (String.eqb (cell.attr c) attr)
                 then (out +:+ ESC +:+ "[m" +:+ ESC +:+ "[" +:+ cell.attr c +:+ "m", cell.attr c)
                 else (out, attr) in
               (out +:+ string_of_rune (cell.rune c), attr))).
    rewrite (proj2 (Z.ltb_lt 0 (cell.width c)) Hw).
    rewrite (proj2 (String.eqb_neq (cell.attr c) attr) Hne). simpl andb. cbv iota beta.
    rewrite (paintLine_same l' _ _ Hl). unfold styleSeq. simpl lineText.
    by rewrite !append_assoc.
Qed.

(** A frame without styles is written as its text: commitBuffer writes the
    move to the top of the old frame and the erase sequence, then the runes
    of the cells with a line feed between two lines, then the move of the
    cursor to the dot; it writes no style sequence and no reset. *)
Theorem plain_frame_is_written_as_text (old buf : buffer) :
  Forall (Forall (λ c, cell.attr c = "")) (elems (cells buf)) →
  commitBytes old buf =
    (if 0 <? pos.line (dot old)
     then ESC +:+ "[" +:+ fmt_d (pos.line (dot old)) +:+ "A" else "")
    +:+ CR +:+ ESC +:+ "[J"
    +:+ String.concat LF (lineText <$> elems (cells buf))
    +:+ deltaPos (if pos.col (cursor buf) =? width buf
                  then pos.mk (pos.line (cursor buf)) (pos.col (cursor buf) ⊖ 1)
                  else cursor buf) (dot buf).
Proof.
  intros Hall. unfold commitBytes.
  set (start := (if 0 <? pos.line (dot old) then _ else _) +:+ CR +:+ ESC +:+ "[J").
  assert (Hpaint : paintLines 0 (elems (cells buf)) (start, "") =
                   (start +:+ String.concat LF (lineText <$> elems (cells buf)), "")).
  { destruct (elems (cells buf)) as [|l ls].
    - simpl. by rewrite append_nil_r.
    - inversion Hall as [|? ? Hl Hls]; subst. simpl paintLines.
      rewrite (paintLine_same l _ _ Hl), (paintLines_same ls (0 + 1) _ _ ltac:(lia) Hls).
      rewrite fmap_cons, concat_eachAfter. by rewrite !append_assoc. }
  rewrite Hpaint. simpl negb. cbv iota. unfold start. by rewrite !append_assoc.
Qed.

(** [a_run_of_cells_sets_its_style_once]: two cells in the style 7 after
    plain text. *)
Lemma a_run_of_cells_sets_its_style_once_witness :
  paintLine [cell.mk 97 1 "7"; cell.mk 98 1 "7"] ("x", "") =
    ("x" +:+ styleSeq "7" +:+ "ab", "7").
Proof.
  apply (a_run_of_cells_sets_its_style_once [cell.mk 97 1 "7"; cell.mk 98 1 "7"] "x" "7" "").
  - repeat constructor.
  - right. eexists _, _. split; [done | by vm_compute].
Defined.

(** [plain_frame_is_written_as_text]: two lines, the dot at the end of the
    second, over an old frame whose dot was on its second line. *)
Lemma plain_frame_is_written_as_text_witness :
  commitBytes (mkBuffer 9 0 0 false (Some [[]; []]) (pos.mk 1 0))
    (mkBuffer 9 1 0 false (Some [[cell.mk 97 1 ""; cell.mk 98 1 ""]; [cell.mk 99 1 ""]])
       (pos.mk 1 1)) =
  ESC +:+ "[1A" +:+ CR +:+ ESC +:+ "[Jab" +:+ LF +:+ "c" +:+ ESC +:+ "[2G".
Proof.
  apply (plain_frame_is_written_as_text
           (mkBuffer 9 0 0 false (Some [[]; []]) (pos.mk 1 0))
           (mkBuffer 9 1 0 false (Some [[cell.mk 97 1 ""; cell.mk 98 1 ""]; [cell.mk 99 1 ""]])
              (pos.mk 1 1))).
  repeat constructor.
Defined.

(** [navigation_listing_never_panics] in a terminal 20 columns wide: two
    names in the current directory, one in the parent. *)
Lemma navigation_listing_never_panics_witness :
  ∃ b, navigationListing (env:=asciiEnv)
         (navigation.mk (mkNavColumn [[97]; [98; 99]] 1) (mkNavColumn [[100; 101; 102]] 0))
         20 3 = Ok b ∧ writable b.
Proof.
  apply (navigation_listing_never_panics (env:=asciiEnv)); try (by vm_compute).
  - repeat constructor; by vm_compute.
  - repeat constructor; by vm_compute.
Defined.
